(** * Ion-insertion workflow of atomate2 (common/jobs/electrode.py and
      common/flows/electrode.py): a shallow embedding and its properties.

    The Python functions build jobflow [Job]s whose arguments are either
    plain values or references to the outputs of other jobs; a job manager
    later resolves the references against a store and runs the function
    bodies.  Both layers are modelled: the function bodies (translated one
    by one from the source) and a small job manager in the style of
    jobflow's [run_locally]. *)

From Stdlib Require Import ZArith String Ascii.
From stdpp Require Import gmap strings list pretty.

Local Open Scope string_scope.
Local Open Scope Z_scope.
Local Open Scope list_scope.

(** ** External collaborators *)

(** The opaque types of pymatgen / the compute engine. *)
Class Types := {
  Structure : Type;        (* pymatgen.core.Structure *)
  VolumetricData : Type;   (* pymatgen.io.vasp.outputs.VolumetricData *)
  ComputedEntry : Type;    (* pymatgen.entries.computed_entries.ComputedEntry *)
  Defect : Type;           (* items yielded by ChargeInterstitialGenerator *)
  ElementLike : Type;      (* pymatgen.alchemy.ElementLike *)
  Energy : Type;           (* the type of entry.energy_per_atom *)
  MatcherSettings : Type;  (* every StructureMatcher field but ignored_species *)
}.

(** pymatgen's StructureMatcher, as far as this code looks into it. *)
Record StructureMatcher `{Types} := {
  sm_ignored_species : list string;
  sm_settings : MatcherSettings;
}.

(** [structure_matcher.as_dict()]: the dictionary that
    [_add_ignored_species] reads and writes. *)
Record MatcherDict `{Types} := {
  d_ignored_species : option (list string);
  d_settings : MatcherSettings;
}.

(** The document a relax or static calculation resolves to; only the four
    attributes read by the source are kept. *)
Record TaskDoc `{Types} := {
  td_structure : Structure;
  td_entry : ComputedEntry;
  td_dir_name : string;
  td_uuid : string;
}.

(** The functions of the collaborators the source calls. *)
Class Collaborators `{Types} := {
  energy_per_atom : ComputedEntry → Energy;
  (* Python's [<] on two energies *)
  energy_lt : Energy → Energy → bool;
  (* [structure_matcher.fit(s1, s2)] *)
  fit : StructureMatcher → Structure → Structure → bool;
  (* [str(species)] *)
  str : ElementLike → string;
  defect_structure : Defect → Structure;
  (* [ChargeInterstitialGenerator().generate] with default tolerances *)
  default_generate : VolumetricData → list ElementLike → list Defect;
}.

(** A jobflow [Maker] whose [make] yields one job: the name it gives the job
    and the document the calculation resolves to. *)
Record Maker `{Types} := {
  maker_name : string;
  maker_calc : Structure → TaskDoc;
}.

(** ** jobflow data *)

(** uuids are drawn from a counter *)
Abbreviation Uuid := nat (only parsing).

(** [job.output], [job.output.attr], ... *)
Record OutputReference := {
  ref_uuid : Uuid;
  ref_attributes : list string;
}.

Definition output_of (u : Uuid) : OutputReference :=
  {| ref_uuid := u; ref_attributes := [] |}.
Definition getattr (r : OutputReference) (a : string) : OutputReference :=
  {| ref_uuid := ref_uuid r; ref_attributes := ref_attributes r ++ [a] |}.

(** A job argument: a value, or a reference still to be resolved. *)
Inductive Arg (A : Type) :=
| Val (a : A)
| Ref (r : OutputReference).
Arguments Val {A} a.
Arguments Ref {A} r.

(** The NamedTuple [RelaxJobSummary].  Python does not check the field
    types: the fan-out stage fills the first three fields with references,
    the selector reads them after resolution.  The fourth field is filled
    with [job_.output.uuid], the [uuid] attribute of the reference
    [job_.output] itself: the uuid of the job, not a reference. *)
Record RelaxJobSummary (S E D U : Type) := {
  structure : S;
  entry : E;
  dir_name : D;
  uuid : U;
}.
Arguments structure {S E D U} _.
Arguments entry {S E D U} _.
Arguments dir_name {S E D U} _.
Arguments uuid {S E D U} _.

Definition SummaryRefs :=
  RelaxJobSummary OutputReference OutputReference OutputReference Uuid.

(** A string without a space, as the decimal form of a number is. *)
Fixpoint no_space (s : string) : Prop :=
  match s with
  | "" => True
  | String ch s => ch ≠ " "%char ∧ no_space s
  end.

Section Electrode.
Context {types : Types} {collaborators : Collaborators}.

Definition Summary := RelaxJobSummary Structure ComputedEntry string Uuid.

(** Python values that travel between jobs. *)
Inductive Value :=
| VNone
| VStructure (s : Structure)
| VStructures (l : list Structure)
| VChg (c : VolumetricData)
| VTaskDoc (d : TaskDoc)
| VEntry (e : ComputedEntry)
| VStr (s : string)
| VSummaryRefs (l : list SummaryRefs)
| VSummaries (l : list Summary).

(** The decorated functions of jobs/electrode.py with their arguments, plus
    [maker.make] and jobflow's [store_inputs]. *)
Inductive Call :=
| call_make (maker : Maker) (structure : Structure)
| call_get_charge_density_job
    (prev_dir : Arg string) (get_charge_density : string → VolumetricData)
| call_get_inserted_structures
    (chg : Arg VolumetricData) (inserted_species : ElementLike)
    (insertions_per_step : Z)
    (charge_insertion_generator :
       option (VolumetricData → list ElementLike → list Defect))
| call_get_relaxed_job_summaries
    (structures : Arg (list Structure)) (relax_maker : Maker)
    (append_name : string)
| call_get_min_energy_structure
    (relaxed_summaries : Arg (list Summary)) (ref_structure : Structure)
    (structure_matcher : StructureMatcher)
| call_get_stable_inserted_structure
    (structure : Arg (option Structure)) (inserted_element : ElementLike)
    (structure_matcher : StructureMatcher) (static_maker relax_maker : Maker)
    (get_charge_density : string → VolumetricData)
    (insertions_per_step : Z) (n_steps : option Z) (n_inserted : Z)
| call_store_inputs (inputs : Value).

Record Job := {
  job_uuid : Uuid;
  job_name : string;
  job_call : Call;
}.

Record Flow := {
  flow_jobs : list Job;
  flow_output : Value;   (* [VNone] when the flow declares no output *)
}.

Record Response := {
  output : Value;
  replace : option Flow;
}.

(** What a job function hands back: a plain value ([return None] is
    [Returned VNone]) or an explicit [Response]. *)
Inductive Returns :=
| Returned (v : Value)
| Responded (r : Response).

(** [Response.from_job_returns]. *)
Definition from_job_returns (r : Returns) : Response :=
  match r with
  | Returned v => {| output := v; replace := None |}
  | Responded r => r
  end.

(** ** Creating jobs

    Every job gets a fresh uuid; the supply of uuids is threaded through
    the functions that create jobs. *)

Definition M (A : Type) : Type := Uuid → A * Uuid.
Definition ret {A} (a : A) : M A := λ u, (a, u).
Definition bind {A B} (m : M A) (k : A → M B) : M B :=
  λ u, let (a, u') := m u in k a u'.
Notation "'let*' x ':=' m 'in' k" := (bind m (λ x, k))
  (at level 10, x name, m at level 100, k at level 200).

Definition new_job (name : string) (c : Call) : M Job :=
  λ u, ({| job_uuid := u; job_name := name; job_call := c |}, S u).

(** [job_.append_name(s)] *)
Definition append_name (s : string) (j : Job) : Job :=
  {| job_uuid := job_uuid j; job_name := job_name j +:+ s;
     job_call := job_call j |}.

(** [maker.make(structure=structure)] *)
Definition make_job (maker : Maker) (structure : Structure) : M Job :=
  new_job (maker_name maker) (call_make maker structure).

(** ** jobs/electrode.py *)

(** [get_charge_density_job]: the function body ... *)
Definition get_charge_density_job
    (prev_dir : string) (get_charge_density : string → VolumetricData)
  : Returns :=
  Returned (VChg (get_charge_density prev_dir)).

(** ... and the job that a call of the decorated function creates. *)
Definition job_get_charge_density_job
    (prev_dir : Arg string) (get_charge_density : string → VolumetricData)
  : M Job :=
  new_job "get_charge_density_job"
          (call_get_charge_density_job prev_dir get_charge_density).

(** Python's [l[:stop]]. *)
Definition slice_to {A} (l : list A) (stop : Z) : list A :=
  if bool_decide (0 ≤ stop) then take (Z.to_nat stop) l
  else take (Z.to_nat (Z.of_nat (length l) + stop)) l.

Definition inserted_structures
    (chg : VolumetricData) (inserted_species : ElementLike)
    (charge_insertion_generator :
       option (VolumetricData → list ElementLike → list Defect))
  : list Structure :=
  let generate := default default_generate charge_insertion_generator in
  let gen := generate chg [inserted_species] in
  defect_structure <$> gen.

Definition get_inserted_structures
    (chg : VolumetricData) (inserted_species : ElementLike)
    (insertions_per_step : Z)
    (charge_insertion_generator :
       option (VolumetricData → list ElementLike → list Defect))
  : Returns :=
  let inserted_structures :=
    inserted_structures chg inserted_species charge_insertion_generator in
  Returned (VStructures (slice_to inserted_structures insertions_per_step)).

Definition job_get_inserted_structures
    (chg : Arg VolumetricData) (inserted_species : ElementLike)
    (insertions_per_step : Z) : M Job :=
  new_job "get_inserted_structures"
    (call_get_inserted_structures chg inserted_species insertions_per_step None).

(** The summary built in the loop body of [get_relaxed_job_summaries]. *)
Definition summary_of_job (job_ : Job) : SummaryRefs :=
  let out := output_of (job_uuid job_) in
  {| structure := getattr out "structure";
     entry := getattr out "entry";
     dir_name := getattr out "dir_name";
     uuid := ref_uuid out |}.

(** The loop of [get_relaxed_job_summaries], from index [ii] on.  The
    source appends [job_] to [relax_jobs] and renames it afterwards; the list
    holds the same object, so it holds the renamed job. *)
Fixpoint relax_loop (relax_maker : Maker) (append_name_ : string)
    (ii : nat) (structures : list Structure) : M (list Job * list SummaryRefs) :=
  match structures with
  | [] => ret ([], [])
  | structure :: rest =>
    let* job_ := make_job relax_maker structure in
    let job_ :=
      append_name (" " +:+ append_name_ +:+ " (" +:+ pretty ii +:+ ")") job_ in
    let* r := relax_loop relax_maker append_name_ (S ii) rest in
    ret (job_ :: r.1, summary_of_job job_ :: r.2)
  end.

Definition get_relaxed_job_summaries
    (structures : list Structure) (relax_maker : Maker) (append_name_ : string)
  : M Returns :=
  let* r := relax_loop relax_maker append_name_ 0%nat structures in
  let relax_jobs := r.1 in
  let outputs := r.2 in
  let replace_flow :=
    {| flow_jobs := relax_jobs; flow_output := VSummaryRefs outputs |} in
  ret (Responded {| output := VSummaryRefs outputs;
                    replace := Some replace_flow |}).

Definition job_get_relaxed_job_summaries
    (structures : Arg (list Structure)) (relax_maker : Maker)
    (append_name_ : string) : M Job :=
  new_job "get_relaxed_job_summaries"
    (call_get_relaxed_job_summaries structures relax_maker append_name_).

(** Python's [min(l, key=key)] on a non-empty list, [best] being the
    minimum so far: a later item replaces it only when its key is strictly
    smaller. *)
Fixpoint min_from {A} (key : A → Energy) (best : A) (l : list A) : A :=
  match l with
  | [] => best
  | x :: l' => min_from key (if energy_lt (key x) (key best) then x else best) l'
  end.

(** The source first turns every item of [relaxed_summaries] (a list, once
    resolved from the store) back into a [RelaxJobSummary]; here the argument
    is a list of summaries from the start.  The test [len(...) == 0] and the
    call of [min] on a non-empty list are the two branches of the match. *)
Definition get_min_energy_structure
    (relaxed_summaries : list Summary) (ref_structure : Structure)
    (structure_matcher : StructureMatcher) : Returns :=
  let topotactic_summaries :=
    filter (λ summary : Summary,
              fit structure_matcher ref_structure (structure summary) = true)
           relaxed_summaries in
  match topotactic_summaries with
  | [] => Returned VNone
  | first :: others =>
    let min_summary :=
      min_from (λ x : Summary, energy_per_atom (entry x)) first others in
    Responded {| output := VStructure (structure min_summary);
                 replace := None |}
  end.

Definition job_get_min_energy_structure
    (relaxed_summaries : Arg (list Summary)) (ref_structure : Structure)
    (structure_matcher : StructureMatcher) : M Job :=
  new_job "get_min_energy_structure"
    (call_get_min_energy_structure relaxed_summaries ref_structure
                                   structure_matcher).

Definition job_get_stable_inserted_structure
    (structure : Arg (option Structure)) (inserted_element : ElementLike)
    (structure_matcher : StructureMatcher) (static_maker relax_maker : Maker)
    (get_charge_density : string → VolumetricData)
    (insertions_per_step : Z) (n_steps : option Z) (n_inserted : Z) : M Job :=
  new_job "get_stable_inserted_structure"
    (call_get_stable_inserted_structure structure inserted_element
       structure_matcher static_maker relax_maker get_charge_density
       insertions_per_step n_steps n_inserted).

(** The second guard of [get_stable_inserted_structure]:
    [n_steps is not None and n_steps <= 0]. *)
Definition budget_exhausted (n_steps : option Z) : bool :=
  match n_steps with
  | Some n => bool_decide (n ≤ 0)
  | None => false
  end.

Definition get_stable_inserted_structure
    (structure : option Structure) (inserted_element : ElementLike)
    (structure_matcher : StructureMatcher) (static_maker relax_maker : Maker)
    (get_charge_density : string → VolumetricData)
    (insertions_per_step : Z) (n_steps : option Z) (n_inserted : Z)
  : M Returns :=
  match structure with
  | None => ret (Returned VNone)
  | Some structure =>
    if budget_exhausted n_steps then ret (Returned VNone)
    else
      let add_name := pretty n_inserted in
      let* static_job := make_job static_maker structure in
      let* chg_job :=
        job_get_charge_density_job
          (Ref (getattr (output_of (job_uuid static_job)) "dir_name"))
          get_charge_density in
      let* insertion_job :=
        job_get_inserted_structures (Ref (output_of (job_uuid chg_job)))
          inserted_element insertions_per_step in
      let* relax_jobs :=
        job_get_relaxed_job_summaries
          (Ref (output_of (job_uuid insertion_job))) relax_maker add_name in
      let* min_en_job :=
        job_get_min_energy_structure (Ref (output_of (job_uuid relax_jobs)))
          structure structure_matcher in
      let nn_step := (λ n, n - 1) <$> n_steps in
      let* next_step :=
        job_get_stable_inserted_structure
          (Ref (output_of (job_uuid min_en_job))) inserted_element
          structure_matcher static_maker relax_maker get_charge_density
          insertions_per_step nn_step (n_inserted + 1) in
      let rename := append_name (" " +:+ add_name) in
      let replace_flow :=
        {| flow_jobs := rename <$> [static_job; chg_job; insertion_job;
                                     relax_jobs; min_en_job; next_step];
           flow_output := VNone |} in
      ret (Responded {| output := VNone; replace := Some replace_flow |})
  end.

(** ** flows/electrode.py *)

(** pymatgen's [StructureMatcher.as_dict] and [from_dict], restricted to
    the key the source touches. *)
Definition as_dict (sm : StructureMatcher) : MatcherDict :=
  {| d_ignored_species := Some (sm_ignored_species sm);
     d_settings := sm_settings sm |}.
Definition from_dict (d : MatcherDict) : StructureMatcher :=
  {| sm_ignored_species := default [] (d_ignored_species d);
     sm_settings := d_settings d |}.

(** A Python [set] of strings, kept as a list without duplicates (the
    order in which Python would list the set is not specified; nothing below
    depends on it). *)
Definition py_set (l : list string) : list string := remove_dups l.
Definition py_set_add (x : string) (s : list string) : list string :=
  if decide (x ∈ s) then s else s ++ [x].

Definition _add_ignored_species
    (structure_matcher : StructureMatcher) (species : ElementLike)
  : StructureMatcher :=
  let sm_dict := as_dict structure_matcher in
  let ignored_species := py_set (default [] (d_ignored_species sm_dict)) in
  let ignored_species := py_set_add (str species) ignored_species in
  let sm_dict :=
    {| d_ignored_species := Some ignored_species;
       d_settings := d_settings sm_dict |} in
  from_dict sm_dict.

(** The dataclass [ElectrodeInsertionMaker]; the abstract method
    [get_charge_density] is a field. *)
Record ElectrodeInsertionMaker := {
  relax_maker : Maker;
  static_maker : Maker;
  bulk_relax_maker : option Maker;
  name : string;
  structure_matcher : StructureMatcher;
  get_charge_density : string → VolumetricData;
}.

Definition make (self : ElectrodeInsertionMaker) (structure : Structure)
    (inserted_element : ElementLike) (n_steps : option Z)
    (insertions_per_step : Z) : M Flow :=
  let* relax :=
    match bulk_relax_maker self with
    | Some bulk => make_job bulk structure
    | None => make_job (relax_maker self) structure
    end in
  let sm := _add_ignored_species (structure_matcher self) inserted_element in
  let* inserted_structure :=
    job_get_stable_inserted_structure
      (Ref (getattr (output_of (job_uuid relax)) "structure"))
      inserted_element sm (static_maker self) (relax_maker self)
      (get_charge_density self) insertions_per_step n_steps 0 in
  ret {| flow_jobs := [relax; inserted_structure]; flow_output := VNone |}.

(** ** The job manager

    jobflow itself is a library outside the repository.  The manager below
    follows its documented behaviour for a local run: jobs run in flow
    order; before a job runs, every reference among its arguments is
    replaced by the referenced output found in the store; the output of the
    response is stored under the job's uuid; a replacement flow runs in the
    place of the job that returned it, followed, when the flow declares an
    output, by a [store_inputs] job that carries the uuid of the replaced job
    and stores the resolved output. *)

(** [getattr] on a resolved output. *)
Definition get_attribute (v : Value) (a : string) : option Value :=
  match v with
  | VTaskDoc d =>
    if decide (a = "structure") then Some (VStructure (td_structure d))
    else if decide (a = "entry") then Some (VEntry (td_entry d))
    else if decide (a = "dir_name") then Some (VStr (td_dir_name d))
    else if decide (a = "uuid") then Some (VStr (td_uuid d))
    else None
  | _ => None
  end.

Definition resolve (σ : gmap Uuid Value) (r : OutputReference) : option Value :=
  foldl (λ acc a, acc ≫= λ v, get_attribute v a)
        (σ !! ref_uuid r) (ref_attributes r).

Definition as_str (v : Value) : option string :=
  match v with VStr s => Some s | _ => None end.
Definition as_chg (v : Value) : option VolumetricData :=
  match v with VChg c => Some c | _ => None end.
Definition as_structure (v : Value) : option Structure :=
  match v with VStructure s => Some s | _ => None end.
Definition as_entry (v : Value) : option ComputedEntry :=
  match v with VEntry e => Some e | _ => None end.
Definition as_structures (v : Value) : option (list Structure) :=
  match v with VStructures l => Some l | _ => None end.
Definition as_summaries (v : Value) : option (list Summary) :=
  match v with VSummaries l => Some l | _ => None end.
Definition as_optional_structure (v : Value) : option (option Structure) :=
  match v with
  | VNone => Some None
  | VStructure s => Some (Some s)
  | _ => None
  end.

Definition resolve_arg {A} (cast : Value → option A)
    (σ : gmap Uuid Value) (a : Arg A) : option A :=
  match a with
  | Val a => Some a
  | Ref r => resolve σ r ≫= cast
  end.

Definition resolve_summary (σ : gmap Uuid Value) (r : SummaryRefs)
  : option Summary :=
  s ← resolve σ (structure r) ≫= as_structure;
  e ← resolve σ (entry r) ≫= as_entry;
  d ← resolve σ (dir_name r) ≫= as_str;
  Some {| structure := s; entry := e; dir_name := d; uuid := uuid r |}.

(** References nested in a value handed to [store_inputs]. *)
Definition resolve_value (σ : gmap Uuid Value) (v : Value) : option Value :=
  match v with
  | VSummaryRefs l => VSummaries <$> mapM (resolve_summary σ) l
  | _ => Some v
  end.

(** The body of a job applied to its resolved arguments; [None] when a
    reference cannot be resolved to a value of the expected kind. *)
Definition run_call (σ : gmap Uuid Value) (c : Call) : option (M Returns) :=
  match c with
  | call_make maker structure =>
    Some (ret (Returned (VTaskDoc (maker_calc maker structure))))
  | call_get_charge_density_job prev_dir gcd =>
    prev_dir ← resolve_arg as_str σ prev_dir;
    Some (ret (get_charge_density_job prev_dir gcd))
  | call_get_inserted_structures chg sp ips gen =>
    chg ← resolve_arg as_chg σ chg;
    Some (ret (get_inserted_structures chg sp ips gen))
  | call_get_relaxed_job_summaries structures maker nm =>
    structures ← resolve_arg as_structures σ structures;
    Some (get_relaxed_job_summaries structures maker nm)
  | call_get_min_energy_structure summaries ref_structure sm =>
    summaries ← resolve_arg as_summaries σ summaries;
    Some (ret (get_min_energy_structure summaries ref_structure sm))
  | call_get_stable_inserted_structure structure el sm sta rel gcd ips n k =>
    structure ← resolve_arg as_optional_structure σ structure;
    Some (get_stable_inserted_structure structure el sm sta rel gcd ips n k)
  | call_store_inputs inputs =>
    inputs ← resolve_value σ inputs;
    Some (ret (Returned inputs))
  end.

Record RunState := {
  store : gmap Uuid Value;
  supply : Uuid;
  history : list (Job * Response);   (* the jobs run so far, oldest first *)
}.

Inductive Status :=
| Finished
| OutOfFuel
| Failed (j : Job).

(** jobflow's [prepare_replace]: the jobs that take the place of
    [current_job]. *)
Definition prepare_replace (current_job : Job) (r : Response) : list Job :=
  match replace r with
  | None => []
  | Some fl =>
    flow_jobs fl ++
    match flow_output fl with
    | VNone => []
    | out => [ {| job_uuid := job_uuid current_job;
                  job_name := "store_inputs";
                  job_call := call_store_inputs out |} ]
    end
  end.

Definition exec_job (j : Job) (st : RunState) : option (Response * RunState) :=
  m ← run_call (store st) (job_call j);
  let r := m (supply st) in
  let resp := from_job_returns r.1 in
  Some (resp, {| store := <[ job_uuid j := output resp ]> (store st);
                 supply := r.2;
                 history := history st ++ [(j, resp)] |}).

Fixpoint run_jobs (fuel : nat) (queue : list Job) (st : RunState)
  : Status * RunState :=
  match queue with
  | [] => (Finished, st)
  | j :: rest =>
    match fuel with
    | O => (OutOfFuel, st)
    | S fuel =>
      match exec_job j st with
      | None => (Failed j, st)
      | Some (resp, st') => run_jobs fuel (prepare_replace j resp ++ rest) st'
      end
    end
  end.

(** Build a flow from scratch and run it. *)
Definition run_flow (fuel : nat) (build : M Flow) (seed : Uuid)
  : Status * RunState :=
  let fl := build seed in
  run_jobs fuel (flow_jobs fl.1)
           {| store := ∅; supply := fl.2; history := [] |}.

(** ** Vocabulary of the properties *)

(** A response carries an output when its output is not [None] ... *)
Definition carries_output (r : Response) : bool :=
  match output r with VNone => false | _ => true end.
(** ... and a replacement when [replace] is set. *)
Definition carries_replace (r : Response) : bool :=
  match replace r with Some _ => true | None => false end.

(** The summary that the relax job [u] resolves to once its document is
    [d]. *)
Definition doc_summary (u : Uuid) (d : TaskDoc) : Summary :=
  {| structure := td_structure d; entry := td_entry d;
     dir_name := td_dir_name d; uuid := u |}.

(** The job that the fan-out loop creates [k] iterations after it was
    entered at index [ii] with [u] the next free uuid. *)
Definition relax_job (relax_maker : Maker) (tag : string) (u : Uuid)
    (ii k : nat) (structure : Structure) : Job :=
  {| job_uuid := (u + k)%nat;
     job_name := maker_name relax_maker
                 +:+ " " +:+ tag +:+ " (" +:+ pretty (ii + k)%nat +:+ ")";
     job_call := call_make relax_maker structure |}.

(** The six jobs of the flow by which a step that passes its guard replaces
    itself, [u] being the next free uuid. *)
Definition step_jobs (structure : Structure) (inserted_element : ElementLike)
    (structure_matcher : StructureMatcher) (static_maker relax_maker : Maker)
    (get_charge_density : string → VolumetricData)
    (insertions_per_step : Z) (n_steps : option Z) (n_inserted : Z) (u : Uuid)
  : list Job :=
  let tag := " " +:+ pretty n_inserted in
  [ {| job_uuid := u;
       job_name := maker_name static_maker +:+ tag;
       job_call := call_make static_maker structure |};
    {| job_uuid := S u;
       job_name := "get_charge_density_job" +:+ tag;
       job_call := call_get_charge_density_job
                     (Ref (getattr (output_of u) "dir_name"))
                     get_charge_density |};
    {| job_uuid := S (S u);
       job_name := "get_inserted_structures" +:+ tag;
       job_call := call_get_inserted_structures
                     (Ref (output_of (S u))) inserted_element
                     insertions_per_step None |};
    {| job_uuid := S (S (S u));
       job_name := "get_relaxed_job_summaries" +:+ tag;
       job_call := call_get_relaxed_job_summaries
                     (Ref (output_of (S (S u)))) relax_maker
                     (pretty n_inserted) |};
    {| job_uuid := S (S (S (S u)));
       job_name := "get_min_energy_structure" +:+ tag;
       job_call := call_get_min_energy_structure
                     (Ref (output_of (S (S (S u))))) structure
                     structure_matcher |};
    {| job_uuid := S (S (S (S (S u))));
       job_name := "get_stable_inserted_structure" +:+ tag;
       job_call := call_get_stable_inserted_structure
                     (Ref (output_of (S (S (S (S u))))))
                     inserted_element structure_matcher static_maker
                     relax_maker get_charge_density insertions_per_step
                     ((λ n, n - 1) <$> n_steps) (n_inserted + 1) |} ].

(** The budget a job holds, when it is a recursive step. *)
Definition step_budget (j : Job) : option (option Z) :=
  match job_call j with
  | call_get_stable_inserted_structure _ _ _ _ _ _ _ n_steps _ => Some n_steps
  | _ => None
  end.

(** A recursion level: a recursive step that ran and put a flow in its
    place. *)
Definition expands (p : Job * Response) : bool :=
  match step_budget p.1 with
  | Some _ => carries_replace p.2
  | None => false
  end.
Definition expansions (h : list (Job * Response)) : nat :=
  length (filter (λ p, expands p = true) h).

(** The levels a job may still open: its budget when it is a step. *)
Definition levels_left (j : Job) : nat :=
  match step_budget j with
  | Some (Some n) => Z.to_nat n
  | _ => 0%nat
  end.

(** The matcher a job holds, when it is a step or a selector. *)
Definition job_matcher (j : Job) : option StructureMatcher :=
  match job_call j with
  | call_get_stable_inserted_structure _ _ sm _ _ _ _ _ _ => Some sm
  | call_get_min_energy_structure _ _ sm => Some sm
  | _ => None
  end.

(** The jobs whose function never answers with a replacement. *)
Definition is_leaf (j : Job) : bool :=
  match job_call j with
  | call_get_relaxed_job_summaries _ _ _ => false
  | call_get_stable_inserted_structure _ _ _ _ _ _ _ _ _ => false
  | _ => true
  end.

(** The run of a queue ends (by finishing or by a failed job) when some
    amount of fuel is enough for it. *)
Definition halts (queue : list Job) (st : RunState) : Prop :=
  ∃ fuel, (run_jobs fuel queue st).1 ≠ OutOfFuel.
Definition always_halts (queue : list Job) : Prop := ∀ st, halts queue st.

(** Two runs of one request differ in the uuids they draw.  [shift_* d]
    turns the data of a run into the data of the run whose uuids are all
    larger by [d]. *)
Definition shift_ref (d : nat) (r : OutputReference) : OutputReference :=
  {| ref_uuid := (ref_uuid r + d)%nat; ref_attributes := ref_attributes r |}.
Definition shift_arg {A} (d : nat) (a : Arg A) : Arg A :=
  match a with
  | Val a => Val a
  | Ref r => Ref (shift_ref d r)
  end.
Definition shift_summary (d : nat) (r : SummaryRefs) : SummaryRefs :=
  {| structure := shift_ref d (structure r); entry := shift_ref d (entry r);
     dir_name := shift_ref d (dir_name r); uuid := (uuid r + d)%nat |}.
Definition shift_resolved (d : nat) (r : Summary) : Summary :=
  {| structure := structure r; entry := entry r; dir_name := dir_name r;
     uuid := (uuid r + d)%nat |}.
Definition shift_value (d : nat) (v : Value) : Value :=
  match v with
  | VSummaryRefs l => VSummaryRefs (shift_summary d <$> l)
  | VSummaries l => VSummaries (shift_resolved d <$> l)
  | _ => v
  end.
Definition shift_call (d : nat) (c : Call) : Call :=
  match c with
  | call_make maker structure => call_make maker structure
  | call_get_charge_density_job prev_dir gcd =>
    call_get_charge_density_job (shift_arg d prev_dir) gcd
  | call_get_inserted_structures chg sp ips gen =>
    call_get_inserted_structures (shift_arg d chg) sp ips gen
  | call_get_relaxed_job_summaries structures maker tag =>
    call_get_relaxed_job_summaries (shift_arg d structures) maker tag
  | call_get_min_energy_structure summaries ref_structure sm =>
    call_get_min_energy_structure (shift_arg d summaries) ref_structure sm
  | call_get_stable_inserted_structure structure el sm sta rel gcd ips n k =>
    call_get_stable_inserted_structure (shift_arg d structure) el sm sta rel
      gcd ips n k
  | call_store_inputs inputs => call_store_inputs (shift_value d inputs)
  end.
Definition shift_job (d : nat) (j : Job) : Job :=
  {| job_uuid := (job_uuid j + d)%nat; job_name := job_name j;
     job_call := shift_call d (job_call j) |}.
Definition shift_flow (d : nat) (fl : Flow) : Flow :=
  {| flow_jobs := shift_job d <$> flow_jobs fl;
     flow_output := shift_value d (flow_output fl) |}.
Definition shift_response (d : nat) (r : Response) : Response :=
  {| output := shift_value d (output r);
     replace := shift_flow d <$> replace r |}.
Definition shift_returns (d : nat) (r : Returns) : Returns :=
  match r with
  | Returned v => Returned (shift_value d v)
  | Responded r => Responded (shift_response d r)
  end.

(** A cast that accepts no value that holds a uuid. *)
Definition shift_blind {A} (cast : Value → option A) : Prop :=
  ∀ d v, cast (shift_value d v) = cast v.

(** The states of the two runs after the same number of jobs. *)
Record shifted (d : nat) (st1 st2 : RunState) : Prop := {
  shifted_store :
    ∀ u : Uuid, store st2 !! (u + d)%nat = shift_value d <$> store st1 !! u;
  shifted_supply : supply st2 = (supply st1 + d)%nat;
  shifted_history :
    history st2 = (λ p, (shift_job d p.1, shift_response d p.2)) <$> history st1;
}.

(** The recursive steps that ran, with what each resolved to. *)
Definition step_outputs (h : list (Job * Response)) : list (string * Value) :=
  omap (λ p, match step_budget p.1 with
             | Some _ => Some (job_name p.1, output p.2)
             | None => None
             end) h.

(** The names of the jobs that ran, in the order in which they ran. *)
Definition names (h : list (Job * Response)) : list string :=
  (λ p, job_name p.1) <$> h.

(** The strict order that Python's [min] needs on the keys. *)
Record StrictWeakOrder (lt : Energy → Energy → bool) : Prop := {
  lt_irrefl : ∀ a, lt a a = false;
  lt_trans : ∀ a b c, lt a b = true → lt b c = true → lt a c = true;
  lt_split : ∀ a b c, lt a b = true → lt a c = true ∨ lt c b = true;
}.

(** ** One round of insertion, as a function

    What the jobs of one step compute between them, without jobs or store:
    the candidates proposed for a structure, their relaxation summaries, the
    structure the selector picks, and the chain of picks. *)

Definition candidates (s : Structure) (el : ElementLike) (sta : Maker)
    (gcd : string → VolumetricData) (ips : Z) : list Structure :=
  slice_to (inserted_structures (gcd (td_dir_name (maker_calc sta s))) el None)
           ips.

(** The summaries of the relaxed candidates, when the relax jobs draw the
    uuids from [v] on. *)
Definition relaxed (rel : Maker) (v : Uuid) (cands : list Structure)
  : list Summary :=
  imap (λ i c, doc_summary (v + i) (maker_calc rel c)) cands.

Definition value_of (o : option Structure) : Value :=
  match o with
  | Some s => VStructure s
  | None => VNone
  end.

(** The pick of a round.  The selector reads the structures and the entries
    of the summaries and not their uuids, which are numbered from 0 here. *)
Definition select (s : Structure) (el : ElementLike) (sm : StructureMatcher)
    (sta rel : Maker) (gcd : string → VolumetricData) (ips : Z)
  : option Structure :=
  match output (from_job_returns
                  (get_min_energy_structure
                     (relaxed rel 0%nat (candidates s el sta gcd ips)) s sm)) with
  | VStructure s' => Some s'
  | _ => None
  end.

(** The picks of at most [gas] successive rounds, from the structure and
    the budget a step is entered with; a pick of [None] ends the chain. *)
Fixpoint rounds (gas : nat) (el : ElementLike) (sm : StructureMatcher)
    (sta rel : Maker) (gcd : string → VolumetricData) (ips : Z)
    (structure : option Structure) (n_steps : option Z)
  : list (option Structure) :=
  match gas, structure with
  | S gas, Some s =>
    if budget_exhausted n_steps then []
    else
      let pick := select s el sm sta rel gcd ips in
      pick :: rounds gas el sm sta rel gcd ips pick ((λ n, n - 1) <$> n_steps)
  | _, _ => []
  end.

(** What the selectors that ran resolved to, oldest first. *)
Definition selector_outputs (h : list (Job * Response)) : list Value :=
  omap (λ p, match job_call p.1 with
             | call_get_min_energy_structure _ _ _ => Some (output p.2)
             | _ => None
             end) h.

End Electrode.

(** ** A small concrete instance, for examples

    A structure is written as a string: the host is the empty string and
    each insertion appends ["H<i>"], [i] being the number of the site. *)

Module Toy.

#[export] Instance toy_types : Types := {|
  Structure := string;
  VolumetricData := string;
  ComputedEntry := Z;
  Defect := string;
  ElementLike := string;
  Energy := Z;
  MatcherSettings := list string;
|}.

(** three sites in the host, four in any other structure *)
Definition sites (chg : string) : list nat :=
  if decide (chg = "") then [0; 1; 2]%nat else [0; 1; 2; 3]%nat.

(** The settings of a matcher list the structures it accepts as
    topotactic. *)
#[export] Instance toy_collaborators : @Collaborators toy_types := {
  energy_per_atom := λ e : Z, e;
  energy_lt := Z.ltb;
  fit := λ sm (_ s : string), bool_decide (s ∈ sm_settings sm);
  str := λ s : string, s;
  defect_structure := λ d : string, d;
  default_generate := λ (chg : string) sp,
    (λ i : nat, chg +:+ String.concat "" sp +:+ pretty i) <$> sites chg;
}.

(** energies in units of 0.1 *)
Definition energy (s : string) : Z :=
  if decide (s = "H0") then -102
  else if decide (s = "H1") then -98
  else if decide (s = "H2") then -110
  else 0.

Definition doc (s : string) : @TaskDoc toy_types :=
  {| td_structure := s; td_entry := energy s; td_dir_name := s;
     td_uuid := "task" |}.

Definition relax : @Maker toy_types :=
  {| maker_name := "relax"; maker_calc := doc |}.
Definition static : @Maker toy_types :=
  {| maker_name := "static"; maker_calc := doc |}.

Definition matcher (accepted : list string) : @StructureMatcher toy_types :=
  {| sm_ignored_species := []; sm_settings := accepted |}.

Definition maker (accepted : list string) : ElectrodeInsertionMaker :=
  {| relax_maker := relax; static_maker := static; bulk_relax_maker := None;
     name := "ion insertion"; structure_matcher := matcher accepted;
     get_charge_density := λ dir, dir |}.

End Toy.

(** The same instance with a matcher that accepts every structure. *)
Module Open.

Definition accept_all : @Collaborators Toy.toy_types :=
  @Build_Collaborators Toy.toy_types
    (λ e : Z, e) Z.ltb (λ _ _ _, true) (λ s : string, s) (λ d : string, d)
    (λ (chg : string) sp,
       (λ i : nat, chg +:+ String.concat "" sp +:+ pretty i) <$> Toy.sites chg).

End Open.

(** * vasp/jobs/defect.py: the functions that build jobs

    The functions of this file that read calculation directories or run the
    solver are left out; the ones below only build jobs and gather their
    outputs, like the fan-out of the insertion workflow. *)

(** ** Python dictionaries and indexing *)

(** A [dict] keeps its keys in insertion order; setting a key that is
    present replaces the value in place. *)
Fixpoint dict_set {K V} `{EqDecision K} (k : K) (v : V) (d : list (K * V))
  : list (K * V) :=
  match d with
  | [] => [(k, v)]
  | (k', v') :: d' =>
    if decide (k = k') then (k, v) :: d' else (k', v') :: dict_set k v d'
  end.

Fixpoint dict_get {K V} `{EqDecision K} (k : K) (d : list (K * V)) : option V :=
  match d with
  | [] => None
  | (k', v') :: d' => if decide (k = k') then Some v' else dict_get k d'
  end.

(** [d.update(other)] *)
Definition dict_update {K V} `{EqDecision K} (d other : list (K * V))
  : list (K * V) :=
  foldl (λ acc kv, dict_set kv.1 kv.2 acc) d other.

(** [l[i]]: a negative index counts from the end; [None] is IndexError. *)
Definition py_index {A} (l : list A) (i : Z) : option A :=
  if bool_decide (0 ≤ i) then l !! Z.to_nat i
  else if bool_decide (- Z.of_nat (length l) ≤ i)
       then l !! Z.to_nat (Z.of_nat (length l) + i)
       else None.

(** What this file asks of a pymatgen [Defect] and of a [Structure]. *)
Class DefectCollaborators `{Types} := {
  SupercellMatrix : Type;   (* the array [sc_mat] *)
  Distortion : Type;        (* the floats of [distortions] *)
  Extra : Type;             (* the values of an [add_info] dictionary *)
  defect_name : Defect → string;
  get_charge_states : Defect → list Z;
  get_supercell_structure : Defect → option SupercellMatrix → Structure;
  (* [s.copy()] followed by [set_charge(qq)] *)
  set_charge : Structure → Z → Structure;
  (* Python's [sorted] on the distortions *)
  sorted : list Distortion → list Distortion;
  (* [relaxed_structure.interpolate(distorted_structure, nimages=...)] *)
  interpolate : Structure → Structure → list Distortion → list Structure;
}.

Section Defects.
Context {types : Types} {defects : DefectCollaborators}.

Notation "'let*' x ':=' m 'in' k" := (bind m (λ x, k))
  (at level 10, x name, m at level 100, k at level 200).

(** The values written to [info.json]. *)
Inductive InfoValue :=
| info_defect (d : Defect)
| info_int (q : Z)
| info_structure (s : Structure)
| info_distortion (d : Distortion)
| info_extra (x : Extra).

(** A job made by [maker.make(structure, prev_vasp_dir=...)], with the name
    it bears and the [info] that [update_maker_kwargs] sets on its maker
    ([write_additional_data->info:json]). *)
Record CalcJob := {
  cj_uuid : Uuid;
  cj_name : string;
  cj_maker : Maker;
  cj_structure : Structure;
  cj_prev_vasp_dir : option string;
  cj_info : option (list (string * InfoValue));
}.

Definition make_calc (maker : Maker) (structure : Structure)
    (prev_vasp_dir : option string) : M CalcJob :=
  λ u, ({| cj_uuid := u; cj_name := maker_name maker; cj_maker := maker;
           cj_structure := structure; cj_prev_vasp_dir := prev_vasp_dir;
           cj_info := None |}, S u).

Definition calc_append_name (s : string) (j : CalcJob) : CalcJob :=
  {| cj_uuid := cj_uuid j; cj_name := cj_name j +:+ s; cj_maker := cj_maker j;
     cj_structure := cj_structure j; cj_prev_vasp_dir := cj_prev_vasp_dir j;
     cj_info := cj_info j |}.

Definition calc_set_info (info : list (string * InfoValue)) (j : CalcJob)
  : CalcJob :=
  {| cj_uuid := cj_uuid j; cj_name := cj_name j; cj_maker := cj_maker j;
     cj_structure := cj_structure j; cj_prev_vasp_dir := cj_prev_vasp_dir j;
     cj_info := Some info |}.

(** What a job function of this file answers: an output, and the jobs that
    replace it, with the output their flow declares, if any. *)
Record Reply (O : Type) := {
  reply_output : O;
  reply_replace : list CalcJob;
  reply_flow_output : option O;
}.
Arguments reply_output {O} _.
Arguments reply_replace {O} _.
Arguments reply_flow_output {O} _.

(** *** [run_all_charge_states] and [spawn_defect_calcs] *)

(** An entry of [all_chg_outputs]: three references to the outputs of the
    relaxation, and the uuid of the job itself. *)
Record ChargeOutput := {
  co_structure : OutputReference;
  co_entry : OutputReference;
  co_dir_name : OutputReference;
  co_uuid : Uuid;
}.

Definition charge_output (charged_relax : CalcJob) : ChargeOutput :=
  let charged_output := output_of (cj_uuid charged_relax) in
  {| co_structure := getattr charged_output "structure";
     co_entry := getattr charged_output "entry";
     co_dir_name := getattr charged_output "dir_name";
     co_uuid := cj_uuid charged_relax |}.

Definition charge_suffix (defect : Defect) (defect_index : string) (qq : Z)
  : string :=
  if decide (defect_index = "")
  then " " +:+ defect_name defect +:+ " q=" +:+ pretty qq
  else " " +:+ defect_name defect +:+ "-" +:+ defect_index
       +:+ " q=" +:+ pretty qq.

Definition charge_info (defect : Defect) (qq : Z)
    (add_info : option (list (string * InfoValue)))
  : list (string * InfoValue) :=
  let info := [("defect", info_defect defect); ("charge_state", info_int qq)] in
  match add_info with
  | Some add_info => dict_update info add_info
  | None => info
  end.

(** The loop over the charge states; [all_chg_outputs] and [jobs] are the
    dictionary and the list that the source grows. *)
Fixpoint charge_loop (defect : Defect) (relax_maker : Maker)
    (defect_index : string) (add_info : option (list (string * InfoValue)))
    (sc_def_struct : Structure) (charge_states : list Z)
    (all_chg_outputs : list (Z * ChargeOutput)) (jobs : list CalcJob)
  : M (list (Z * ChargeOutput) * list CalcJob) :=
  match charge_states with
  | [] => ret (all_chg_outputs, jobs)
  | qq :: charge_states =>
    let suffix := charge_suffix defect defect_index qq in
    let charged_struct := set_charge sc_def_struct qq in
    let* charged_relax := make_calc relax_maker charged_struct None in
    let charged_relax := calc_append_name suffix charged_relax in
    let info := charge_info defect qq add_info in
    let charged_relax := calc_set_info info charged_relax in
    charge_loop defect relax_maker defect_index add_info sc_def_struct
      charge_states
      (dict_set qq (charge_output charged_relax) all_chg_outputs)
      (jobs ++ [charged_relax])
  end.

Definition run_all_charge_states (defect : Defect) (relax_maker : Maker)
    (sc_mat : option SupercellMatrix) (defect_index : string)
    (add_info : option (list (string * InfoValue)))
  : M (list (Z * ChargeOutput) * list CalcJob) :=
  let sc_def_struct := get_supercell_structure defect sc_mat in
  charge_loop defect relax_maker defect_index add_info sc_def_struct
    (get_charge_states defect) [] [].

Definition spawn_defect_calcs (defect : Defect) (sc_mat : SupercellMatrix)
    (relax_maker : Maker) : M (Reply (list (Z * ChargeOutput))) :=
  let* r := run_all_charge_states defect relax_maker (Some sc_mat) "" None in
  let all_chg_outputs := r.1 in
  let defect_q_jobs := [] ++ r.2 in
  ret {| reply_output := all_chg_outputs; reply_replace := defect_q_jobs;
         reply_flow_output := None |}.

(** *** [spawn_energy_curve_calcs] *)

(** An item of [outputs]: three references into the static job's document,
    and [task_doc.uuid], the [uuid] attribute of the reference [task_doc]
    itself, which is the uuid of the static job. *)
Record CurveOutput := {
  cu_structure : OutputReference;
  cu_energy : OutputReference;
  cu_dir_name : OutputReference;
  cu_uuid : Uuid;
}.

Definition curve_output (static_job : CalcJob) : CurveOutput :=
  let task_doc := output_of (cj_uuid static_job) in
  {| cu_structure := getattr (getattr task_doc "output") "structure";
     cu_energy := getattr (getattr task_doc "output") "energy";
     cu_dir_name := getattr task_doc "dir_name";
     cu_uuid := ref_uuid task_doc |}.

Definition curve_suffix (add_name : string) (i : nat) : string :=
  if decide (add_name = "") then " " +:+ pretty i
  else " " +:+ add_name +:+ " " +:+ pretty i.

Definition curve_info (relaxed_structure distorted_structure : Structure)
    (distortion : Distortion) (add_info : option (list (string * InfoValue)))
  : list (string * InfoValue) :=
  let info := [("relaxed_structure", info_structure relaxed_structure);
               ("distorted_structure", info_structure distorted_structure);
               ("distortion", info_distortion distortion)] in
  match add_info with
  | Some add_info => dict_update info add_info
  | None => info
  end.

(** The loop over [enumerate(distorted_structures)], from index [i] on;
    [None] is the IndexError of [s_distortions[i]]. *)
Fixpoint curve_loop (relaxed_structure distorted_structure : Structure)
    (s_distortions : list Distortion) (static_maker : Maker)
    (prev_vasp_dir : option string) (add_name : string)
    (add_info : option (list (string * InfoValue)))
    (i : nat) (distorted_structures : list Structure)
    (jobs : list CalcJob) (outputs : list CurveOutput)
  : M (option (list CalcJob * list CurveOutput)) :=
  match distorted_structures with
  | [] => ret (Some (jobs, outputs))
  | d_struct :: distorted_structures =>
    let* static_job := make_calc static_maker d_struct prev_vasp_dir in
    let suffix := curve_suffix add_name i in
    match s_distortions !! i with
    | None => ret None
    | Some distortion =>
      let info := curve_info relaxed_structure distorted_structure distortion
                    add_info in
      let static_job := calc_set_info info static_job in
      let static_job := calc_append_name suffix static_job in
      curve_loop relaxed_structure distorted_structure s_distortions
        static_maker prev_vasp_dir add_name add_info (S i)
        distorted_structures (jobs ++ [static_job])
        (outputs ++ [curve_output static_job])
    end
  end.

Definition spawn_energy_curve_calcs
    (relaxed_structure distorted_structure : Structure)
    (distortions : list Distortion) (static_maker : Maker)
    (prev_vasp_dir : option string) (add_name : string)
    (add_info : option (list (string * InfoValue)))
  : M (option (Reply (list CurveOutput))) :=
  (* made, and not used *)
  let* _ := make_calc static_maker relaxed_structure None in
  let s_distortions := sorted distortions in
  let distorted_structures :=
    interpolate relaxed_structure distorted_structure s_distortions in
  let* r := curve_loop relaxed_structure distorted_structure s_distortions
              static_maker prev_vasp_dir add_name add_info 0%nat
              distorted_structures [] [] in
  ret (match r with
       | None => None
       | Some (jobs, outputs) =>
         Some {| reply_output := outputs; reply_replace := jobs;
                 reply_flow_output := Some outputs |}
       end).

(** *** [get_ccd_documents] *)

(** The class [CCDInput]. *)
Record CCDInput := {
  ccd_structure : Structure;
  ccd_energy : Energy;
  ccd_dir_name : string;
  ccd_uuid : string;
}.

(** The keyword arguments handed to [CCDDocument.from_task_outputs]. *)
Record CCDArguments := {
  structures1 : list Structure;
  structures2 : list Structure;
  energies1 : list Energy;
  energies2 : list Energy;
  static_dirs1 : list string;
  static_dirs2 : list string;
  static_uuids1 : list string;
  static_uuids2 : list string;
  relaxed_uuid1 : string;
  relaxed_uuid2 : string;
}.

(** Up to the call of [from_task_outputs]: the arguments of the call, or
    [None] for the IndexError of one of the two [static_uuids[...]]. *)
Definition get_ccd_documents (inputs1 inputs2 : list CCDInput)
    (undistorted_index : Z) : option CCDArguments :=
  let uuids1 := ccd_uuid <$> inputs1 in
  let uuids2 := ccd_uuid <$> inputs2 in
  r1 ← py_index uuids1 undistorted_index;
  r2 ← py_index uuids2 undistorted_index;
  Some {| structures1 := ccd_structure <$> inputs1;
          structures2 := ccd_structure <$> inputs2;
          energies1 := ccd_energy <$> inputs1;
          energies2 := ccd_energy <$> inputs2;
          static_dirs1 := ccd_dir_name <$> inputs1;
          static_dirs2 := ccd_dir_name <$> inputs2;
          static_uuids1 := uuids1;
          static_uuids2 := uuids2;
          relaxed_uuid1 := r1;
          relaxed_uuid2 := r2 |}.

End Defects.

Arguments reply_output {types defects O} _.
Arguments reply_replace {types defects O} _.
Arguments reply_flow_output {types defects O} _.

(** A small instance: the defect ["Mg_Ga"] lists the charge state 0 twice;
    the interpolation gives one image per distortion. *)
Module ToyDefect.

Fixpoint insert_sorted (x : Z) (l : list Z) : list Z :=
  match l with
  | [] => [x]
  | y :: l' => if bool_decide (x ≤ y) then x :: l else y :: insert_sorted x l'
  end.

#[export] Instance toy_defects : @DefectCollaborators Toy.toy_types := {
  SupercellMatrix := Z;
  Distortion := Z;
  Extra := string;
  defect_name := λ d : string, d;
  get_charge_states := λ d : string,
    if decide (d = "Mg_Ga") then [0; 1; 0] else [-1; 0; 1];
  get_supercell_structure := λ (d : string) (m : option Z),
    d +:+ " in " +:+ from_option pretty "auto" m;
  set_charge := λ (s : string) (q : Z), s +:+ " q=" +:+ pretty q;
  sorted := foldr insert_sorted [];
  interpolate := λ (a b : string) (ds : list Z),
    (λ d : Z, a +:+ ">" +:+ b +:+ "@" +:+ pretty d) <$> ds;
}.

End ToyDefect.

(** * Properties *)

Section Properties.
Context {types : Types} {collaborators : Collaborators}.

(** ** Candidate generation *)

Lemma slice_to_nonneg {A} (l : list A) (stop : Z) :
  0 ≤ stop → slice_to l stop = take (Z.to_nat (Z.min (Z.of_nat (length l)) stop)) l.
Proof.
  intros Hstop. unfold slice_to. rewrite bool_decide_eq_true_2 by done.
  destruct (decide (stop ≤ Z.of_nat (length l))) as [Hle | Hgt].
  - by rewrite Z.min_r.
  - rewrite Z.min_l, Nat2Z.id by lia.
    rewrite firstn_all. apply take_ge. lia.
Qed.

Lemma slice_to_neg {A} (l : list A) (stop : Z) :
  stop < 0 → slice_to l stop = take (Z.to_nat (Z.of_nat (length l) + stop)) l.
Proof.
  intros Hstop. unfold slice_to. by rewrite bool_decide_eq_false_2 by lia.
Qed.

Lemma slice_to_prefix {A} (l : list A) (stop : Z) : slice_to l stop `prefix_of` l.
Proof. unfold slice_to. case_bool_decide; apply prefix_take. Qed.

(** The slice of the stage, cap by cap.  For a cap [c ≥ 0] the stage
    returns the first [min(L, c)] generated candidates, as C8 states; the
    cap is not checked, and for a negative cap the slice returns the first
    [L + c] of them (none when that is negative); whatever the cap, the result
    is a leading segment of the generated sequence, in generator order. *)
Theorem get_inserted_structures_leading chg sp (c : Z) gen :
  let generated := inserted_structures chg sp gen in
  let L := Z.of_nat (length generated) in
  (0 ≤ c → get_inserted_structures chg sp c gen
           = Returned (VStructures (take (Z.to_nat (Z.min L c)) generated)))
  ∧ (c < 0 → get_inserted_structures chg sp c gen
             = Returned (VStructures (take (Z.to_nat (L + c)) generated)))
  ∧ ∃ kept, get_inserted_structures chg sp c gen = Returned (VStructures kept)
            ∧ kept `prefix_of` generated.
Proof.
  intros generated L. unfold get_inserted_structures.
  fold generated. split_and!.
  - intros Hc. by rewrite slice_to_nonneg.
  - intros Hc. by rewrite slice_to_neg.
  - eexists. split; [done | apply slice_to_prefix].
Qed.

(** ** The selector *)

Section Selector.
Context (Horder : StrictWeakOrder energy_lt).

Lemma lt_asym a b : energy_lt a b = true → energy_lt b a = false.
Proof.
  intros Hab. destruct (energy_lt b a) eqn:Hba; [| done].
  pose proof (lt_trans _ Horder _ _ _ Hab Hba) as Haa.
  by rewrite (lt_irrefl _ Horder) in Haa.
Qed.

(** [min_from] returns the first item of minimal key: the items before it
    have a strictly larger key, no item after it has a smaller one. *)
Lemma min_from_first_minimum {A} (key : A → Energy) (l : list A) (best : A) :
  ∃ pre post,
    best :: l = pre ++ min_from key best l :: post
    ∧ (∀ x, x ∈ pre → energy_lt (key (min_from key best l)) (key x) = true)
    ∧ (∀ x, x ∈ post → energy_lt (key x) (key (min_from key best l)) = false).
Proof.
  revert best. induction l as [| x l IH]; intros best.
  { exists [], []. split_and!; [done | |]; intros ? Hin; by apply elem_of_nil in Hin. }
  simpl. destruct (energy_lt (key x) (key best)) eqn:Hx.
  - destruct (IH x) as (pre & post & Heq & Hpre & Hpost).
    remember (min_from key x l) as m eqn:Hm. clear Hm IH.
    exists (best :: pre), post. rewrite Heq. split_and!; [done | | done].
    intros y [-> | Hy]%elem_of_cons; [| by apply Hpre].
    destruct pre as [| p pre]; injection Heq as <- _; [done |].
    eapply (lt_trans _ Horder); [| exact Hx]. apply Hpre. left.
  - destruct (IH best) as (pre & post & Heq & Hpre & Hpost).
    remember (min_from key best l) as m eqn:Hm. clear Hm IH.
    destruct pre as [| p pre]; injection Heq as <- Hl.
    + exists [], (x :: post). subst l. split_and!; [done | |].
      * intros ? Hin; by apply elem_of_nil in Hin.
      * intros y [-> | Hy]%elem_of_cons; [done | by apply Hpost].
    + exists (best :: x :: pre), post. subst l. split_and!; [done | | done].
      assert (energy_lt (key m) (key best) = true) as Hbest by (apply Hpre; left).
      intros y [-> | [-> | Hy]%elem_of_cons]%elem_of_cons; [done | |].
      * destruct (lt_split _ Horder _ _ (key x) Hbest) as [? | Hc];
          [done | congruence].
      * apply Hpre. by right.
Qed.

(** Where a survivor sits in the filtered list, it sits in the sequence. *)
Lemma filter_split {A} (P : A → Prop) `{∀ x, Decision (P x)} (l l1 l2 : list A) x :
  filter P l = l1 ++ x :: l2 →
  ∃ k1 k2, l = k1 ++ x :: k2 ∧ filter P k1 = l1 ∧ filter P k2 = l2 ∧ P x.
Proof.
  revert l1. induction l as [| a l IH]; intros l1 Heq.
  { by destruct l1. }
  rewrite filter_cons in Heq. destruct (decide (P a)) as [Ha | Ha].
  - destruct l1 as [| b l1]; simpl in Heq; injection Heq as -> Heq.
    + exists [], l. by rewrite filter_nil.
    + destruct (IH _ Heq) as (k1 & k2 & -> & <- & <- & Hx).
      exists (b :: k1), k2. by rewrite filter_cons_True.
  - destruct (IH _ Heq) as (k1 & k2 & -> & <- & <- & Hx).
    exists (a :: k1), k2. by rewrite filter_cons_False.
Qed.

(** C3: the selector keeps the summaries whose structure fits the
    reference; it returns [None] exactly when none survives; otherwise it
    returns the structure of a survivor of minimal energy per atom, and of
    the first such survivor in sequence order (every earlier survivor has a
    strictly larger energy). *)
Theorem get_min_energy_structure_first_minimum
    (relaxed_summaries : list Summary) ref_structure structure_matcher :
  let survives (s : Summary) :=
    fit structure_matcher ref_structure (structure s) = true in
  let e (s : Summary) := energy_per_atom (entry s) in
  let result :=
    get_min_energy_structure relaxed_summaries ref_structure structure_matcher in
  (result = Returned VNone ↔ ∀ s, s ∈ relaxed_summaries → ¬ survives s)
  ∧ ((∃ s, s ∈ relaxed_summaries ∧ survives s) →
     ∃ (i : nat) best,
       relaxed_summaries !! i = Some best ∧ survives best
       ∧ result = Responded {| output := VStructure (structure best);
                               replace := None |}
       ∧ (∀ (j : nat) s, relaxed_summaries !! j = Some s → survives s →
            energy_lt (e s) (e best) = false)
       ∧ (∀ (j : nat) s, (j < i)%nat → relaxed_summaries !! j = Some s →
            survives s → energy_lt (e best) (e s) = true)).
Proof.
  intros survives e result. subst result. unfold get_min_energy_structure.
  fold survives.
  destruct (filter survives relaxed_summaries) as [| first others] eqn:Hf.
  - split.
    + split; [| done]. intros _ s Hs Hfit.
      assert (s ∈ filter survives relaxed_summaries) as Hin
        by by apply list_elem_of_filter.
      rewrite Hf in Hin. by apply elem_of_nil in Hin.
    + intros (s & Hs & Hfit).
      assert (s ∈ filter survives relaxed_summaries) as Hin
        by by apply list_elem_of_filter.
      rewrite Hf in Hin. by apply elem_of_nil in Hin.
  - split.
    + split; [done |]. intros Hnone. exfalso.
      assert (first ∈ filter survives relaxed_summaries) as Hin
        by (rewrite Hf; left).
      apply list_elem_of_filter in Hin as [Hfit Hin]. by apply (Hnone first).
    + intros _. fold e.
      destruct (min_from_first_minimum e others first)
        as (pre & post & Heq & Hpre & Hpost).
      remember (min_from e first others) as best eqn:Hbest. clear Hbest.
      rewrite Heq in Hf.
      apply filter_split in Hf as (k1 & k2 & -> & <- & <- & Hfit).
      exists (length k1), best. split_and!.
      * by rewrite list_lookup_middle.
      * done.
      * done.
      * intros j s Hj Hs.
        assert (s ∈ k1 ++ best :: k2) as Hin by by eapply list_elem_of_lookup_2.
        apply elem_of_app in Hin as [Hin | [-> | Hin]%elem_of_cons].
        -- apply lt_asym, Hpre. by apply list_elem_of_filter.
        -- apply (lt_irrefl _ Horder).
        -- apply Hpost. by apply list_elem_of_filter.
      * intros j s Hlt Hj Hs. rewrite lookup_app_l in Hj by done.
        apply Hpre, list_elem_of_filter. split; [done |].
        by eapply list_elem_of_lookup_2.
Qed.

End Selector.

(** ** The fan-out stage *)

Lemma relax_loop_closed relax_maker tag structures (ii : nat) (u : Uuid) :
  relax_loop relax_maker tag ii structures u
  = (let jobs := imap (relax_job relax_maker tag u ii) structures in
     (jobs, summary_of_job <$> jobs), (u + length structures)%nat).
Proof.
  revert ii u. induction structures as [| s rest IH]; intros ii u.
  { simpl. unfold ret. by rewrite Nat.add_0_r. }
  assert (imap (relax_job relax_maker tag (S u) (S ii)) rest
          = imap (relax_job relax_maker tag u ii ∘ S) rest) as Htail.
  { apply imap_ext. intros k x _. unfold relax_job; simpl.
    by rewrite !Nat.add_succ_r. }
  assert (append_name (" " +:+ tag +:+ " (" +:+ pretty ii +:+ ")")
            {| job_uuid := u; job_name := maker_name relax_maker;
               job_call := call_make relax_maker s |}
          = relax_job relax_maker tag u ii 0 s) as Hhead.
  { unfold relax_job, append_name; simpl. by rewrite !Nat.add_0_r. }
  cbn [relax_loop]. unfold bind, make_job, new_job, ret.
  rewrite IH. cbv zeta. cbn [fst snd length]. rewrite Htail, Hhead.
  rewrite Nat.add_succ_r. done.
Qed.

Lemma resolve_summary_of_job (σ : gmap Uuid Value) j d :
  σ !! job_uuid j = Some (VTaskDoc d) →
  resolve_summary σ (summary_of_job j) = Some (doc_summary (job_uuid j) d).
Proof.
  intros Hj. unfold resolve_summary, summary_of_job, resolve; simpl.
  by rewrite Hj.
Qed.

(** C4: the fan-out stage submits one relax job per candidate, in candidate
    order, and answers with as many summaries; summary [i] holds the
    references to the [structure], [entry] and [dir_name] outputs of the job
    made for candidate [i], and the uuid of that job; once the jobs have
    resolved, in whatever order, summary [i] resolves to the structure, the
    entry and the directory of the document of candidate [i], with the uuid
    of its job. *)
Theorem get_relaxed_job_summaries_one_per_candidate
    (structures : list Structure) relax_maker tag (u : Uuid) :
  ∃ jobs outputs,
    (get_relaxed_job_summaries structures relax_maker tag u).1
    = Responded {| output := VSummaryRefs outputs;
                   replace := Some {| flow_jobs := jobs;
                                      flow_output := VSummaryRefs outputs |} |}
    ∧ length jobs = length structures
    ∧ length outputs = length structures
    ∧ NoDup (job_uuid <$> jobs)
    ∧ (∀ (i : nat) s, structures !! i = Some s →
         ∃ j, jobs !! i = Some j
              ∧ job_call j = call_make relax_maker s
              ∧ outputs !! i
                = Some {| structure := getattr (output_of (job_uuid j)) "structure";
                          entry := getattr (output_of (job_uuid j)) "entry";
                          dir_name := getattr (output_of (job_uuid j)) "dir_name";
                          uuid := job_uuid j |})
    ∧ (∀ σ : gmap Uuid Value,
         (∀ j s, j ∈ jobs → job_call j = call_make relax_maker s →
                 σ !! job_uuid j = Some (VTaskDoc (maker_calc relax_maker s))) →
         ∃ summaries,
           resolve_value σ (VSummaryRefs outputs) = Some (VSummaries summaries)
           ∧ length summaries = length structures
           ∧ ∀ (i : nat) s j, structures !! i = Some s → jobs !! i = Some j →
               summaries !! i
               = Some {| structure := td_structure (maker_calc relax_maker s);
                         entry := td_entry (maker_calc relax_maker s);
                         dir_name := td_dir_name (maker_calc relax_maker s);
                         uuid := job_uuid j |}).
Proof.
  unfold get_relaxed_job_summaries, bind, ret.
  rewrite relax_loop_closed. cbv zeta. cbn [fst snd].
  set (jobs := imap (relax_job relax_maker tag u 0) structures).
  assert (∀ (i : nat) s, structures !! i = Some s →
            jobs !! i = Some (relax_job relax_maker tag u 0 i s)) as Hjobs.
  { intros i s Hi. unfold jobs. by rewrite list_lookup_imap, Hi. }
  exists jobs, (summary_of_job <$> jobs). split_and!.
  - done.
  - apply length_imap.
  - unfold jobs. by rewrite length_fmap, length_imap.
  - apply NoDup_alt. intros i k x Hi Hk.
    rewrite list_lookup_fmap in Hi, Hk. unfold jobs in Hi, Hk.
    rewrite list_lookup_imap in Hi, Hk.
    destruct (structures !! i); destruct (structures !! k); simplify_eq/=. lia.
  - intros i s Hi. exists (relax_job relax_maker tag u 0 i s). split_and!.
    + by apply Hjobs.
    + done.
    + by rewrite list_lookup_fmap, (Hjobs _ _ Hi).
  - intros σ Hσ. exists (relaxed relax_maker u structures). split_and!.
    + simpl. apply fmap_Some. eexists; split; [| done].
      apply mapM_Some. apply Forall2_fmap_l.
      apply Forall2_same_length_lookup. split.
      { unfold relaxed, jobs. by rewrite !length_imap. }
      intros i j x Hj Hx. unfold relaxed in Hx. rewrite list_lookup_imap in Hx.
      destruct (structures !! i) as [s |] eqn:Hs; [| done].
      rewrite (Hjobs _ _ Hs) in Hj. simplify_eq/=.
      apply resolve_summary_of_job, Hσ; [| done].
      eapply list_elem_of_lookup_2. by apply Hjobs.
    + apply length_imap.
    + intros i s j Hs Hj. rewrite (Hjobs _ _ Hs) in Hj. simplify_eq.
      unfold relaxed. by rewrite list_lookup_imap, Hs.
Qed.

(** ** The guard of the recursive step *)

Lemma guard_returns_None structure el sm sta rel gcd ips n_steps k (u : Uuid) :
  structure = None ∨ (∃ n, n_steps = Some n ∧ n ≤ 0) →
  get_stable_inserted_structure structure el sm sta rel gcd ips n_steps k u
  = (Returned VNone, u).
Proof.
  intros Hguard. unfold get_stable_inserted_structure.
  destruct Hguard as [-> | (n & -> & Hn)]; [done |].
  destruct structure; [| done]. simpl.
  by rewrite bool_decide_eq_true_2.
Qed.

(** C5: a step whose structure is absent, or whose budget is present and
    [≤ 0], returns [None] at once: it creates no job (the uuid supply is
    untouched), its response has no output and no replacement, the manager
    puts nothing in its place and goes on with the rest of the queue, and
    running the step again changes nothing. *)
Theorem guard_is_a_no_op structure el sm sta rel gcd ips n_steps k :
  structure = None ∨ (∃ n, n_steps = Some n ∧ n ≤ 0) →
  let stop := {| output := VNone; replace := None |} in
  (∀ u : Uuid,
     get_stable_inserted_structure structure el sm sta rel gcd ips n_steps k u
     = (Returned VNone, u))
  ∧ (∀ j st arg,
       job_call j = call_get_stable_inserted_structure
                      arg el sm sta rel gcd ips n_steps k →
       resolve_arg as_optional_structure (store st) arg = Some structure →
       exec_job j st
       = Some (stop, {| store := <[ job_uuid j := VNone ]> (store st);
                        supply := supply st;
                        history := history st ++ [(j, stop)] |})
       ∧ prepare_replace j stop = []
       ∧ ∀ fuel rest,
           run_jobs (S fuel) (j :: rest) st
           = run_jobs fuel rest
               {| store := <[ job_uuid j := VNone ]> (store st);
                  supply := supply st;
                  history := history st ++ [(j, stop)] |})
  ∧ (∀ j st st' r,
       job_call j = call_get_stable_inserted_structure
                      (Val structure) el sm sta rel gcd ips n_steps k →
       exec_job j st = Some (r, st') →
       ∃ st'', exec_job j st' = Some (r, st'')
               ∧ store st'' = store st' ∧ supply st'' = supply st').
Proof.
  intros Hguard stop.
  pose proof (guard_returns_None structure el sm sta rel gcd ips n_steps k)
    as Hret.
  assert (∀ j st arg,
       job_call j = call_get_stable_inserted_structure
                      arg el sm sta rel gcd ips n_steps k →
       resolve_arg as_optional_structure (store st) arg = Some structure →
       exec_job j st
       = Some (stop, {| store := <[ job_uuid j := VNone ]> (store st);
                        supply := supply st;
                        history := history st ++ [(j, stop)] |})) as Hexec.
  { intros j st arg Hj Harg. unfold exec_job. rewrite Hj. simpl.
    rewrite Harg. simpl. by rewrite Hret. }
  split_and!.
  - intros u. by apply Hret.
  - intros j st arg Hj Harg. split_and!.
    + by apply (Hexec j st arg).
    + done.
    + intros fuel rest. simpl. by rewrite (Hexec _ _ _ Hj Harg).
  - intros j st st' r Hj Hrun.
    rewrite (Hexec j st (Val structure) Hj eq_refl) in Hrun. simplify_eq.
    eexists. split; [by apply (Hexec j _ (Val structure) Hj) |]. simpl.
    split; [| done]. apply insert_insert_eq.
Qed.

(** ** The recursive step *)

(** A step that passes its guard answers with the six jobs of [step_jobs],
    and nothing else. *)
Lemma step_expands s el sm sta rel gcd ips n_steps k (u : Uuid) :
  budget_exhausted n_steps = false →
  get_stable_inserted_structure (Some s) el sm sta rel gcd ips n_steps k u
  = (Responded
       {| output := VNone;
          replace := Some {| flow_jobs := step_jobs s el sm sta rel gcd ips
                                                    n_steps k u;
                             flow_output := VNone |} |},
     (6 + u)%nat).
Proof.
  intros Hn. unfold get_stable_inserted_structure. rewrite Hn. reflexivity.
Qed.

Lemma budget_exhausted_true n_steps :
  budget_exhausted n_steps = true ↔ ∃ n, n_steps = Some n ∧ n ≤ 0.
Proof.
  destruct n_steps as [n |]; simpl.
  - rewrite bool_decide_eq_true. split.
    + intros Hn. by exists n.
    + by intros (m & [= <-] & Hm).
  - split; [done |]. by intros (m & [=] & _).
Qed.

(** The two shapes of a step's answer. *)
Lemma step_cases structure el sm sta rel gcd ips n_steps k (u : Uuid) :
  (get_stable_inserted_structure structure el sm sta rel gcd ips n_steps k u
   = (Returned VNone, u)
   ∧ (structure = None ∨ ∃ n, n_steps = Some n ∧ n ≤ 0))
  ∨ (∃ s, structure = Some s ∧ budget_exhausted n_steps = false
          ∧ get_stable_inserted_structure structure el sm sta rel gcd ips
              n_steps k u
            = (Responded
                 {| output := VNone;
                    replace := Some {| flow_jobs := step_jobs s el sm sta rel
                                                      gcd ips n_steps k u;
                                       flow_output := VNone |} |},
               (6 + u)%nat)).
Proof.
  destruct structure as [s |].
  - destruct (budget_exhausted n_steps) eqn:Hn.
    + left. apply budget_exhausted_true in Hn.
      split; [apply guard_returns_None |]; by right.
    + right. exists s. split_and!; [done | done |]. by apply step_expands.
  - left. split; [apply guard_returns_None |]; by left.
Qed.

(** C7, amended: the response of the fan-out stage carries both a
    replacement flow and an output (its list of summaries, which is also the
    declared output of the flow).  No other stage carries both: the
    recursive step carries a replacement and no output when it passes its
    guard and neither when the guard stops it; the selector carries an
    output and no replacement when there is a survivor and neither when
    there is none; candidate generation and the charge density job carry an
    output only. *)
Theorem stage_responses_shape :
  (∀ structures relax_maker tag (u : Uuid),
     let r := from_job_returns
                (get_relaxed_job_summaries structures relax_maker tag u).1 in
     carries_output r = true ∧ carries_replace r = true
     ∧ (flow_output <$> replace r) = Some (output r))
  ∧ (∀ structure el sm sta rel gcd ips n_steps k (u : Uuid),
       let r := from_job_returns
                  (get_stable_inserted_structure structure el sm sta rel gcd
                     ips n_steps k u).1 in
       carries_output r = false
       ∧ carries_replace r
         = bool_decide (structure ≠ None) && negb (budget_exhausted n_steps))
  ∧ (∀ (summaries : list Summary) ref_structure sm,
       let r := from_job_returns
                  (get_min_energy_structure summaries ref_structure sm) in
       carries_replace r = false
       ∧ (carries_output r = true
          ↔ ∃ s, s ∈ summaries ∧ fit sm ref_structure (structure s) = true))
  ∧ (∀ chg sp c gen,
       let r := from_job_returns (get_inserted_structures chg sp c gen) in
       carries_output r = true ∧ carries_replace r = false)
  ∧ (∀ prev_dir gcd,
       let r := from_job_returns (get_charge_density_job prev_dir gcd) in
       carries_output r = true ∧ carries_replace r = false).
Proof.
  split_and!.
  - intros structures relax_maker tag u. unfold get_relaxed_job_summaries, bind, ret.
    by destruct (relax_loop _ _ _ _ _) as [[jobs outs] u'].
  - intros structure el sm sta rel gcd ips n_steps k u r. subst r.
    destruct (step_cases structure el sm sta rel gcd ips n_steps k u)
      as [[-> Hg] | (s & -> & Hn & ->)]; simpl.
    + split; [done |]. symmetry. apply andb_false_iff.
      destruct Hg as [-> | Hg]; [by left | right].
      apply negb_false_iff. by apply budget_exhausted_true.
    + by rewrite Hn.
  - intros summaries ref_structure sm r. subst r.
    unfold get_min_energy_structure.
    destruct (filter _ summaries) as [| first others] eqn:Hf; simpl.
    + split; [done |]. split; [done |]. intros (s & Hs & Hfit).
      assert (s ∈ filter (λ x : Summary,
                fit sm ref_structure (structure x) = true) summaries) as Hin
        by by apply list_elem_of_filter.
      rewrite Hf in Hin. by apply elem_of_nil in Hin.
    + split; [done |]. split; [| done]. intros _.
      assert (first ∈ filter (λ x : Summary,
                fit sm ref_structure (structure x) = true) summaries) as Hin
        by (rewrite Hf; left).
      apply list_elem_of_filter in Hin as [Hfit Hin]. by exists first.
  - done.
  - done.
Qed.

(** ** Runs of the job manager *)

Lemma exec_job_inv j st resp st' :
  exec_job j st = Some (resp, st') →
  ∃ m, run_call (store st) (job_call j) = Some m
       ∧ resp = from_job_returns (m (supply st)).1
       ∧ st' = {| store := <[ job_uuid j := output resp ]> (store st);
                  supply := (m (supply st)).2;
                  history := history st ++ [(j, resp)] |}.
Proof.
  unfold exec_job. destruct (run_call _ _) as [m |]; [| done].
  simpl. intros [= <- <-]. by exists m.
Qed.

(** What the manager puts in the place of a job that ran. *)
Lemma replacement_cases σ c m (u : Uuid) current_job :
  run_call σ c = Some m →
  let resp := from_job_returns (m u).1 in
  match c with
  | call_get_stable_inserted_structure _ el sm sta rel gcd ips n k =>
    (resp = {| output := VNone; replace := None |}
     ∧ prepare_replace current_job resp = [])
    ∨ (∃ s, budget_exhausted n = false
            ∧ carries_replace resp = true
            ∧ prepare_replace current_job resp
              = step_jobs s el sm sta rel gcd ips n k u)
  | call_get_relaxed_job_summaries _ maker tag =>
    ∃ structures,
      let jobs := imap (relax_job maker tag u 0) structures in
      prepare_replace current_job resp
      = jobs ++ [ {| job_uuid := job_uuid current_job;
                     job_name := "store_inputs";
                     job_call := call_store_inputs
                                   (VSummaryRefs (summary_of_job <$> jobs)) |} ]
  | _ => prepare_replace current_job resp = []
  end.
Proof.
  intros Hrun resp. subst resp.
  destruct c as [| | | ? maker tag | | ? el sm sta rel gcd ips n k |];
    simpl in Hrun.
  - by injection Hrun as <-.
  - destruct (resolve_arg _ _ _); simplify_eq/=. done.
  - destruct (resolve_arg _ _ _); simplify_eq/=. done.
  - destruct (resolve_arg _ _ _) as [l |]; simplify_eq/=.
    exists l. unfold get_relaxed_job_summaries, bind, ret.
    by rewrite relax_loop_closed.
  - destruct (resolve_arg _ _ _) as [l |]; simplify_eq/=.
    unfold get_min_energy_structure. by destruct (filter _ l).
  - destruct (resolve_arg _ _ _) as [o |]; simplify_eq/=.
    destruct (step_cases o el sm sta rel gcd ips n k u)
      as [[-> _] | (s & -> & Hn & ->)].
    + by left.
    + right. by exists s.
  - destruct (resolve_value _ _); simplify_eq/=. done.
Qed.

Lemma run_jobs_0 queue st : (run_jobs 0 queue st).2 = st.
Proof. by destruct queue. Qed.

Lemma run_jobs_S fuel j rest st resp st' :
  exec_job j st = Some (resp, st') →
  run_jobs (S fuel) (j :: rest) st
  = run_jobs fuel (prepare_replace j resp ++ rest) st'.
Proof. intros Hexec. simpl. by rewrite Hexec. Qed.

(** An invariant of the queue and the state, kept by every job that runs,
    holds when the run ends, however it ends. *)
Lemma run_jobs_invariant (I : list Job → RunState → Prop) :
  (∀ j rest st resp st',
     I (j :: rest) st → exec_job j st = Some (resp, st') →
     I (prepare_replace j resp ++ rest) st') →
  ∀ fuel queue st, I queue st → ∃ queue', I queue' (run_jobs fuel queue st).2.
Proof.
  intros Hstep. induction fuel as [| fuel IH]; intros queue st HI.
  - destruct queue; by eexists.
  - destruct queue as [| j rest]; simpl; [by eexists |].
    destruct (exec_job j st) as [[resp st'] |] eqn:Hexec; [| by eexists].
    apply IH. by eapply Hstep.
Qed.

(** A property of jobs that replacement flows keep holds of every job
    that runs. *)
Lemma run_jobs_Forall (P : Job → Prop) :
  (∀ j st resp st',
     P j → exec_job j st = Some (resp, st') → Forall P (prepare_replace j resp)) →
  ∀ fuel queue st,
    Forall P queue → Forall (λ p, P p.1) (history st) →
    Forall (λ p, P p.1) (history (run_jobs fuel queue st).2).
Proof.
  intros Hclosed fuel queue st Hq Hh.
  destruct (run_jobs_invariant
              (λ q st, Forall P q ∧ Forall (λ p, P p.1) (history st)))
    with (fuel := fuel) (queue := queue) (st := st) as (q' & _ & Hfinal);
    [| done | done].
  intros j rest st0 resp st' [Hq0 Hh0] Hexec.
  apply Forall_cons in Hq0 as [Hj Hrest].
  pose proof (Hclosed _ _ _ _ Hj Hexec) as Hnew.
  apply exec_job_inv in Hexec as (m & _ & _ & ->). simpl. split.
  - by apply Forall_app.
  - apply Forall_app. split; [done |]. by apply Forall_singleton.
Qed.

(** No recursive step that runs resolves to anything but [None]. *)
Lemma step_output_None j st resp st' :
  exec_job j st = Some (resp, st') →
  step_budget j ≠ None → output resp = VNone.
Proof.
  intros (m & Hrun & -> & _)%exec_job_inv Hstep. unfold step_budget in Hstep.
  destruct (job_call j) as [| | | | | ? el sm sta rel gcd ips n k |];
    try done.
  simpl in Hrun. destruct (resolve_arg _ _ _) as [o |]; simplify_eq/=.
  by destruct (step_cases o el sm sta rel gcd ips n k (supply st))
    as [[-> _] | (s & -> & _ & ->)].
Qed.

Lemma step_outputs_None h :
  Forall (λ p : Job * Response, step_budget p.1 ≠ None → output p.2 = VNone) h →
  Forall (λ x : string * Value, x.2 = VNone) (step_outputs h).
Proof.
  induction 1 as [| p h Hp _ IH]; [constructor |].
  unfold step_outputs. cbn [omap list_omap]. fold (step_outputs h).
  destruct (step_budget p.1) eqn:Hsb; [| done].
  constructor; [| done]. simpl. by apply Hp.
Qed.

Lemma run_step_outputs_None fuel queue st :
  Forall (λ x : string * Value, x.2 = VNone) (step_outputs (history st)) →
  Forall (λ x : string * Value, x.2 = VNone)
         (step_outputs (history (run_jobs fuel queue st).2)).
Proof.
  intros Hst.
  destruct (run_jobs_invariant
              (λ _ st, Forall (λ x : string * Value, x.2 = VNone)
                              (step_outputs (history st))))
    with (fuel := fuel) (queue := queue) (st := st) as (_ & Hfinal);
    [| done | done].
  clear. intros j rest st resp st' Hh Hexec.
  pose proof (step_output_None _ _ _ _ Hexec) as Hnone.
  apply exec_job_inv in Hexec as (m & _ & _ & ->). cbn [history].
  unfold step_outputs in *. rewrite omap_app. apply Forall_app.
  split; [done |].
  apply (step_outputs_None [(j, resp)]). constructor; [done | constructor].
Qed.

(** The job after the selector receives the selector's output as its
    structure. *)
Lemma next_step_exec s el sm sta rel gcd ips n_steps k (u : Uuid) next st v structure :
  step_jobs s el sm sta rel gcd ips n_steps k u !! 5%nat = Some next →
  store st !! (4 + u)%nat = Some v →
  as_optional_structure v = Some structure →
  exec_job next st
  = (let r := get_stable_inserted_structure structure el sm sta rel gcd ips
                ((λ n, n - 1) <$> n_steps) (k + 1) (supply st) in
     Some (from_job_returns r.1,
           {| store := <[ job_uuid next := output (from_job_returns r.1) ]>
                         (store st);
              supply := r.2;
              history := history st ++ [(next, from_job_returns r.1)] |})).
Proof.
  intros [= <-] Hv Hcast. unfold exec_job.
  cbn [job_call run_call]. unfold resolve_arg, resolve.
  cbn [ref_uuid ref_attributes output_of foldl].
  change (S (S (S (S u)))) with (4 + u)%nat. rewrite Hv.
  cbn [mbind option_bind]. rewrite Hcast. done.
Qed.

Lemma selector_without_survivor (summaries : list Summary) s sm :
  (∀ x, x ∈ summaries → fit sm s (structure x) = false) →
  get_min_energy_structure summaries s sm = Returned VNone.
Proof.
  intros Hnone. unfold get_min_energy_structure.
  destruct (filter _ summaries) as [| first others] eqn:Hf; [done |].
  assert (first ∈ filter (λ x : Summary,
            fit sm s (structure x) = true) summaries) as Hin
    by (rewrite Hf; left).
  apply list_elem_of_filter in Hin as [Hfit Hin].
  rewrite (Hnone _ Hin) in Hfit. done.
Qed.

(** After a selector without survivor, the next step stops. *)
Lemma next_step_after_no_survivor s el sm sta rel gcd ips n_steps k (u : Uuid)
    (summaries : list Summary) next st :
  (∀ x, x ∈ summaries → fit sm s (structure x) = false) →
  step_jobs s el sm sta rel gcd ips n_steps k u !! 5%nat = Some next →
  store st !! (4 + u)%nat
  = Some (output (from_job_returns (get_min_energy_structure summaries s sm))) →
  ∃ st', exec_job next st = Some ({| output := VNone; replace := None |}, st').
Proof.
  intros Hnone Hnext Hst.
  rewrite selector_without_survivor in Hst by done. simpl in Hst.
  rewrite (next_step_exec _ _ _ _ _ _ _ _ _ _ _ _ _ None Hnext Hst eq_refl).
  eexists. reflexivity.
Qed.

(** C1, amended: when recursion stops benignly the recursive step returns
    [None], a missing value, and not its input structure.  A step entered
    with a budget [≤ 0] returns [None]; a selector without survivor returns
    [None], which the next step receives as its structure, so that step
    returns [None] too and puts no job in its place; no response of the
    recursive step ever carries an output; and in every run of a flow, every
    recursive step that runs resolves to [None]. *)
Theorem benign_stop_returns_None :
  (∀ s el sm sta rel gcd ips n k (u : Uuid),
     n ≤ 0 →
     get_stable_inserted_structure (Some s) el sm sta rel gcd ips (Some n) k u
     = (Returned VNone, u))
  ∧ (∀ s el sm sta rel gcd ips n_steps k (u : Uuid)
       (summaries : list Summary) next st,
       (∀ x, x ∈ summaries → fit sm s (structure x) = false) →
       step_jobs s el sm sta rel gcd ips n_steps k u !! 5%nat = Some next →
       store st !! (4 + u)%nat
       = Some (output (from_job_returns
                         (get_min_energy_structure summaries s sm))) →
       get_min_energy_structure summaries s sm = Returned VNone
       ∧ ∃ st', exec_job next st
                = Some ({| output := VNone; replace := None |}, st')
                ∧ prepare_replace next {| output := VNone; replace := None |}
                  = [])
  ∧ (∀ structure el sm sta rel gcd ips n_steps k (u : Uuid),
       output (from_job_returns
                 (get_stable_inserted_structure structure el sm sta rel gcd
                    ips n_steps k u).1) = VNone)
  ∧ (∀ fuel build (seed : Uuid),
       Forall (λ x : string * Value, x.2 = VNone)
              (step_outputs (history (run_flow fuel build seed).2))).
Proof.
  split_and!.
  - intros s el sm sta rel gcd ips n k u Hn.
    apply guard_returns_None. right. by exists n.
  - intros s el sm sta rel gcd ips n_steps k u summaries next st Hnone Hnext Hst.
    split; [by apply selector_without_survivor |].
    destruct (next_step_after_no_survivor s el sm sta rel gcd ips n_steps k u
                summaries next st Hnone Hnext Hst) as [st' Hexec].
    by exists st'.
  - intros structure el sm sta rel gcd ips n_steps k u.
    by destruct (step_cases structure el sm sta rel gcd ips n_steps k u)
      as [[-> _] | (s & -> & _ & ->)].
  - intros fuel build seed. unfold run_flow. apply run_step_outputs_None.
    constructor.
Qed.

(** C6, amended: a stop by the step counter does not depend on the
    selector (a step entered with a budget [≤ 0] returns [None] whatever
    structure it receives).  The counter, however, is decremented by every
    step that passes its guard, when that step builds the next one and before
    the selector has run: the next step holds [n_steps - 1] (and
    [n_inserted + 1]) whether or not the selector will find a survivor, so
    the step that receives the [None] of a selector without survivor holds a
    decremented budget.  An absent budget stays absent. *)
Theorem counter_decrements_at_every_expansion :
  (∀ structure el sm sta rel gcd ips n k (u : Uuid),
     n ≤ 0 →
     get_stable_inserted_structure structure el sm sta rel gcd ips (Some n) k u
     = (Returned VNone, u))
  ∧ (∀ s el sm sta rel gcd ips n_steps k (u : Uuid),
       budget_exhausted n_steps = false →
       ∃ first_five next,
         (flow_jobs <$> replace (from_job_returns
            (get_stable_inserted_structure (Some s) el sm sta rel gcd ips
               n_steps k u).1)) = Some (first_five ++ [next])
         ∧ Forall (λ j, step_budget j = None) first_five
         ∧ job_call next
           = call_get_stable_inserted_structure
               (Ref (output_of (4 + u)%nat)) el sm sta rel gcd ips
               (match n_steps with Some n => Some (n - 1) | None => None end)
               (k + 1))
  ∧ (∀ s el sm sta rel gcd ips n k (u : Uuid)
       (summaries : list Summary) next st,
       0 < n →
       (∀ x, x ∈ summaries → fit sm s (structure x) = false) →
       step_jobs s el sm sta rel gcd ips (Some n) k u !! 5%nat = Some next →
       store st !! (4 + u)%nat
       = Some (output (from_job_returns
                         (get_min_energy_structure summaries s sm))) →
       step_budget next = Some (Some (n - 1))
       ∧ ∃ st', exec_job next st
                = Some ({| output := VNone; replace := None |}, st')).
Proof.
  split_and!.
  - intros structure el sm sta rel gcd ips n k u Hn.
    apply guard_returns_None. right. by exists n.
  - intros s el sm sta rel gcd ips n_steps k u Hn. rewrite step_expands by done.
    simpl. eexists [_; _; _; _; _], _. split; [reflexivity |].
    split; [by repeat constructor |]. by destruct n_steps.
  - intros s el sm sta rel gcd ips n k u summaries next st Hn Hnone Hnext Hst.
    split; [by injection Hnext as <- |].
    by apply (next_step_after_no_survivor s el sm sta rel gcd ips (Some n) k u
                summaries).
Qed.

(** ** Recursion depth *)

Lemma expansions_snoc h p :
  expansions (h ++ [p]) = (expansions h + if expands p then 1 else 0)%nat.
Proof.
  unfold expansions. rewrite filter_app, length_app. f_equal.
  rewrite filter_cons, filter_nil. by destruct (expands p).
Qed.

Lemma no_step_no_levels (q : list Job) :
  Forall (λ j, step_budget j = None) q →
  Forall (λ j, step_budget j ≠ Some None) q
  ∧ sum_list_with levels_left q = 0%nat.
Proof.
  induction 1 as [| j q Hj _ [IH1 IH2]]; [done |]. split.
  - constructor; [congruence | done].
  - simpl. unfold levels_left at 1. by rewrite Hj.
Qed.

Lemma relax_jobs_no_step maker tag (u : Uuid) structures current_job v :
  Forall (λ j, step_budget j = None)
         (imap (relax_job maker tag u 0) structures
          ++ [ {| job_uuid := job_uuid current_job; job_name := "store_inputs";
                  job_call := call_store_inputs v |} ]).
Proof.
  apply Forall_app. split; [| by repeat constructor].
  apply Forall_lookup. intros i j Hi. rewrite list_lookup_imap in Hi.
  destruct (structures !! i); by simplify_eq/=.
Qed.

(** A job that runs opens at most one level, and what it puts in its place
    may open one level less than it could. *)
Lemma replacement_levels j st resp st' :
  exec_job j st = Some (resp, st') →
  step_budget j ≠ Some None →
  Forall (λ j', step_budget j' ≠ Some None) (prepare_replace j resp)
  ∧ ((if expands (j, resp) then 1 else 0)
     + sum_list_with levels_left (prepare_replace j resp) ≤ levels_left j)%nat.
Proof.
  intros (m & Hrun & -> & _)%exec_job_inv Hbounded.
  pose proof (replacement_cases _ _ _ (supply st) j Hrun) as Hcases.
  unfold expands, levels_left at 2. cbn [fst snd].
  destruct (job_call j) as [| | | ? maker tag | |? el sm sta rel gcd ips n k |]
    eqn:Hcall; cbv zeta in Hcases;
    [ assert (step_budget j = None) as Hsb
        by (unfold step_budget; by rewrite Hcall) ..
    | assert (step_budget j = Some n) as Hsb
        by (unfold step_budget; by rewrite Hcall)
    | assert (step_budget j = None) as Hsb
        by (unfold step_budget; by rewrite Hcall) ];
    rewrite Hsb.
  1-3, 5, 7: rewrite Hcases; split; [done | simpl; lia].
  - destruct Hcases as [sts ->].
    destruct (no_step_no_levels _
      (relax_jobs_no_step maker tag (supply st) sts j
         (VSummaryRefs (summary_of_job
            <$> imap (relax_job maker tag (supply st) 0) sts))))
      as [Hb ->].
    split; [done | lia].
  - destruct n as [n |]; [| congruence].
    destruct Hcases as [[-> ->] | (s & Hn & -> & ->)].
    + split; [done | simpl; lia].
    + simpl in Hn. apply bool_decide_eq_false in Hn. split.
      * repeat constructor; done.
      * simpl. unfold levels_left, step_budget; simpl. lia.
Qed.

(** *** Termination *)

Lemma halts_app q1 q2 st :
  halts q1 st →
  (∀ fuel st1, run_jobs fuel q1 st = (Finished, st1) → halts q2 st1) →
  halts (q1 ++ q2) st.
Proof.
  intros [fuel Hfuel]. revert q1 st Hfuel.
  induction fuel as [| fuel IH]; intros q1 st Hfuel Hnext.
  - destruct q1 as [| j rest]; [| done]. by apply (Hnext 0%nat).
  - destruct q1 as [| j rest]; [by apply (Hnext 0%nat) |].
    simpl in Hfuel. destruct (exec_job j st) as [[resp st'] |] eqn:Hexec.
    + destruct (IH (prepare_replace j resp ++ rest) st' Hfuel) as [fuel' Hf'].
      { intros f st1 Hf. apply (Hnext (S f)). simpl. by rewrite Hexec. }
      exists (S fuel'). simpl. rewrite Hexec. by rewrite app_assoc.
    + exists 1%nat. simpl. by rewrite Hexec.
Qed.

Lemma always_halts_app q1 q2 :
  always_halts q1 → always_halts q2 → always_halts (q1 ++ q2).
Proof. intros H1 H2 st. apply halts_app; [apply H1 |]. intros _ st1 _. apply H2. Qed.

Lemma always_halts_nil : always_halts [].
Proof. intros st. by exists 0%nat. Qed.

Lemma always_halts_Forall q :
  Forall (λ j, always_halts [j]) q → always_halts q.
Proof.
  induction 1 as [| j q Hj _ IH]; [apply always_halts_nil |].
  by apply (always_halts_app [j] q).
Qed.

Lemma always_halts_job j :
  (∀ st resp st', exec_job j st = Some (resp, st') →
                  always_halts (prepare_replace j resp)) →
  always_halts [j].
Proof.
  intros Hnew st. destruct (exec_job j st) as [[resp st'] |] eqn:Hexec.
  - destruct (Hnew _ _ _ Hexec st') as [fuel Hfuel].
    exists (S fuel). simpl. by rewrite Hexec, app_nil_r.
  - exists 1%nat. simpl. by rewrite Hexec.
Qed.

Lemma leaf_halts j : is_leaf j = true → always_halts [j].
Proof.
  intros Hj. apply always_halts_job.
  intros st resp st' (m & Hrun & -> & _)%exec_job_inv.
  pose proof (replacement_cases _ _ _ (supply st) j Hrun) as Hcases.
  unfold is_leaf in Hj.
  destruct (job_call j); try done; cbv zeta in Hcases;
    rewrite Hcases; apply always_halts_nil.
Qed.

Lemma relax_jobs_leaves maker tag (u : Uuid) structures current_job v :
  Forall (λ j, is_leaf j = true)
         (imap (relax_job maker tag u 0) structures
          ++ [ {| job_uuid := job_uuid current_job; job_name := "store_inputs";
                  job_call := call_store_inputs v |} ]).
Proof.
  apply Forall_app. split; [| by repeat constructor].
  apply Forall_lookup. intros i j Hi. rewrite list_lookup_imap in Hi.
  destruct (structures !! i); by simplify_eq/=.
Qed.

(** Every job but the recursive step ends: it puts nothing in its place, or
    (the fan-out) relax jobs and a [store_inputs] job that put nothing in
    theirs. *)
Lemma no_step_halts j : step_budget j = None → always_halts [j].
Proof.
  intros Hj. destruct (is_leaf j) eqn:Hleaf; [by apply leaf_halts |].
  apply always_halts_job.
  intros st resp st' (m & Hrun & -> & _)%exec_job_inv.
  pose proof (replacement_cases _ _ _ (supply st) j Hrun) as Hcases.
  unfold step_budget in Hj. unfold is_leaf in Hleaf.
  destruct (job_call j) as [| | | ? maker tag | | |]; try done.
  cbv zeta in Hcases. destruct Hcases as [sts ->].
  apply always_halts_Forall.
  eapply Forall_impl; [apply relax_jobs_leaves |].
  intros j' Hj'. by apply leaf_halts.
Qed.

(** A recursive step with a budget ends. *)
Lemma bounded_step_halts (b : nat) j :
  step_budget j ≠ Some None → (levels_left j ≤ b)%nat → always_halts [j].
Proof.
  revert j. induction b as [| b IH]; intros j Hbounded Hb;
    (destruct (step_budget j) as [[n |] |] eqn:Hsb;
       [| done | by apply no_step_halts]);
    apply always_halts_job;
    intros st resp st' (m & Hrun & -> & _)%exec_job_inv;
    pose proof (replacement_cases _ _ _ (supply st) j Hrun) as Hcases;
    unfold levels_left in Hb; rewrite Hsb in Hb; unfold step_budget in Hsb;
    (destruct (job_call j) as [| | | | | ? el sm sta rel gcd ips n' k |];
       try done); injection Hsb as ->; cbv zeta in Hcases;
    (destruct Hcases as [[_ ->] | (s & Hn & _ & ->)];
       [apply always_halts_nil |]);
    simpl in Hn; apply bool_decide_eq_false in Hn.
  - lia.
  - apply always_halts_Forall. unfold step_jobs.
    repeat (apply Forall_cons; split; [by apply no_step_halts |]).
    apply Forall_cons; split; [| done]. apply IH.
    + done.
    + unfold levels_left, step_budget; simpl. lia.
Qed.



(** C2: with a budget [N ≥ 0], a run (however long it is let go on) opens
    at most [N] recursion levels, a level being a recursive step that puts
    its flow of jobs in its place.  A step that opens a level hands
    [n_steps - 1] to the next step, the only step among the jobs it emits; a
    step entered with [n_steps ≤ 0] emits nothing.  And the run of the whole
    flow ends: some amount of fuel is enough for it. *)
Theorem recursion_depth_bounded (N : Z) :
  0 ≤ N →
  (∀ s el sm sta rel gcd ips n k (u : Uuid),
     0 < n →
     ∃ emitted,
       (flow_jobs <$> replace (from_job_returns
          (get_stable_inserted_structure (Some s) el sm sta rel gcd ips
             (Some n) k u).1)) = Some emitted
       ∧ step_budget <$> emitted
         = [None; None; None; None; None; Some (Some (n - 1))])
  ∧ (∀ structure el sm sta rel gcd ips n k (u : Uuid),
       n ≤ 0 →
       get_stable_inserted_structure structure el sm sta rel gcd ips (Some n)
         k u = (Returned VNone, u))
  ∧ (∀ fuel j st,
       step_budget j = Some (Some N) →
       (expansions (history (run_jobs fuel [j] st).2)
        ≤ expansions (history st) + Z.to_nat N)%nat)
  ∧ (∀ fuel self structure el ips (seed : Uuid),
       (expansions
          (history (run_flow fuel (make self structure el (Some N) ips) seed).2)
        ≤ Z.to_nat N)%nat)
  ∧ (∀ self structure el ips (seed : Uuid),
       ∃ fuel,
         (run_flow fuel (make self structure el (Some N) ips) seed).1
         ≠ OutOfFuel).
Proof.
  intros HN.
  assert (∀ fuel queue st (B : nat),
            Forall (λ j, step_budget j ≠ Some None) queue →
            (expansions (history st) + sum_list_with levels_left queue ≤ B)%nat →
            (expansions (history (run_jobs fuel queue st).2) ≤ B)%nat) as Hrun.
  { intros fuel queue st B Hq HB.
    destruct (run_jobs_invariant
                (λ q st, Forall (λ j, step_budget j ≠ Some None) q
                         ∧ (expansions (history st)
                            + sum_list_with levels_left q ≤ B)%nat))
      with (fuel := fuel) (queue := queue) (st := st) as (q' & _ & Hfinal);
      [| done | lia].
    clear. intros j rest st resp st' [Hq HB] Hexec.
    apply Forall_cons in Hq as [Hj Hrest].
    destruct (replacement_levels _ _ _ _ Hexec Hj) as [Hnew Hlevels].
    apply exec_job_inv in Hexec as (m & _ & _ & ->). simpl.
    split; [by apply Forall_app |].
    rewrite expansions_snoc, sum_list_with_app.
    simpl in HB. lia. }
  split_and!.
  - intros s el sm sta rel gcd ips n k u Hn. rewrite step_expands.
    + eexists. split; reflexivity.
    + simpl. apply bool_decide_eq_false. lia.
  - intros structure el sm sta rel gcd ips n k u Hn.
    apply guard_returns_None. right. by exists n.
  - intros fuel j st Hj. apply Hrun.
    + constructor; [congruence | done].
    + simpl. unfold levels_left. rewrite Hj. lia.
  - intros fuel self structure el ips seed. unfold run_flow. apply Hrun.
    + unfold make, bind, ret.
      destruct (bulk_relax_maker self); repeat constructor; done.
    + unfold make, bind, ret. destruct (bulk_relax_maker self); simpl;
        unfold levels_left, step_budget, expansions; simpl; lia.
  - intros self structure el ips seed. unfold run_flow.
    apply always_halts_Forall. unfold make, bind, ret.
    destruct (bulk_relax_maker self); simpl;
      (apply Forall_cons; split; [by apply no_step_halts |]);
      (apply Forall_cons; split; [| done]);
      by apply (bounded_step_halts (Z.to_nat N)).
Qed.

(** ** The entry point *)

Lemma _add_ignored_species_spec sm species :
  str species ∈ sm_ignored_species (_add_ignored_species sm species)
  ∧ (∀ x, x ∈ sm_ignored_species sm →
          x ∈ sm_ignored_species (_add_ignored_species sm species))
  ∧ sm_settings (_add_ignored_species sm species) = sm_settings sm.
Proof.
  unfold _add_ignored_species, py_set_add, py_set; simpl.
  split_and!; [| | done].
  - case_decide; [done |]. apply elem_of_app. right. left.
  - intros x Hx. apply elem_of_remove_dups in Hx.
    case_decide; [done |]. apply elem_of_app. by left.
Qed.

(** Replacement flows hand the matcher on unchanged. *)
Lemma matcher_kept sm' j st resp st' :
  (∀ sm, job_matcher j = Some sm → sm = sm') →
  exec_job j st = Some (resp, st') →
  Forall (λ j', ∀ sm, job_matcher j' = Some sm → sm = sm')
         (prepare_replace j resp).
Proof.
  intros Hj (m & Hrun & -> & _)%exec_job_inv.
  pose proof (replacement_cases _ _ _ (supply st) j Hrun) as Hcases.
  unfold job_matcher in Hj.
  destruct (job_call j) as [| | | ? maker tag | | ? el sm0 sta rel gcd ips n k |];
    cbv zeta in Hcases.
  1-3, 5, 7: by rewrite Hcases.
  - destruct Hcases as [sts ->]. apply Forall_app. split.
    + apply Forall_lookup. intros i j' Hi. rewrite list_lookup_imap in Hi.
      destruct (sts !! i); by simplify_eq/=.
    + by repeat constructor.
  - destruct Hcases as [[_ ->] | (s & _ & _ & ->)]; [done |].
    specialize (Hj _ eq_refl) as ->.
    repeat constructor; unfold job_matcher; simpl; congruence.
Qed.

(** C10: [make] builds a flow of two jobs: first a relaxation of the
    structure it is given, by [bulk_relax_maker] when there is one and by
    [relax_maker] otherwise; then the recursive step, whose structure is a
    reference to the [structure] output of that relaxation, so that the step
    runs on the relaxed structure.  The matcher it hands to the step has the
    inserted element among its ignored species (the species it already
    ignored are kept, its other settings too), and every step and every
    selector that ever runs holds that matcher. *)
Theorem make_relaxes_first self structure el n_steps ips (seed : Uuid) :
  let first_maker := default (relax_maker self) (bulk_relax_maker self) in
  let sm := _add_ignored_species (structure_matcher self) el in
  let relax := {| job_uuid := seed; job_name := maker_name first_maker;
                  job_call := call_make first_maker structure |} in
  let inserted_structure :=
    {| job_uuid := S seed; job_name := "get_stable_inserted_structure";
       job_call := call_get_stable_inserted_structure
                     (Ref (getattr (output_of seed) "structure")) el sm
                     (static_maker self) (relax_maker self)
                     (get_charge_density self) ips n_steps 0 |} in
  let relaxed := maker_calc first_maker structure in
  make self structure el n_steps ips seed
  = ({| flow_jobs := [relax; inserted_structure]; flow_output := VNone |},
     (2 + seed)%nat)
  ∧ history (run_flow 2 (make self structure el n_steps ips) seed).2
    = [ (relax, {| output := VTaskDoc relaxed; replace := None |});
        (inserted_structure,
         from_job_returns
           (get_stable_inserted_structure (Some (td_structure relaxed)) el sm
              (static_maker self) (relax_maker self) (get_charge_density self)
              ips n_steps 0 (2 + seed)%nat).1) ]
  ∧ str el ∈ sm_ignored_species sm
  ∧ (∀ x, x ∈ sm_ignored_species (structure_matcher self) →
          x ∈ sm_ignored_species sm)
  ∧ sm_settings sm = sm_settings (structure_matcher self)
  ∧ (∀ fuel j resp sm',
       (j, resp) ∈ history
                     (run_flow fuel (make self structure el n_steps ips) seed).2 →
       job_matcher j = Some sm' → sm' = sm).
Proof.
  intros first_maker sm relax inserted_structure relaxed.
  assert (make self structure el n_steps ips seed
          = ({| flow_jobs := [relax; inserted_structure];
                flow_output := VNone |}, (2 + seed)%nat)) as Hmake.
  { unfold make, bind, ret. subst relax inserted_structure first_maker.
    by destruct (bulk_relax_maker self). }
  destruct (_add_ignored_species_spec (structure_matcher self) el)
    as (Hin & Hkept & Hsettings).
  split_and!; try done.
  - unfold run_flow. rewrite Hmake. cbn [fst snd flow_jobs].
    set (st0 := {| store := ∅; supply := (2 + seed)%nat; history := [] |}).
    set (r1 := {| output := VTaskDoc relaxed; replace := None |}).
    set (st1 := {| store := <[ seed := VTaskDoc relaxed ]> ∅;
                   supply := (2 + seed)%nat; history := [(relax, r1)] |}).
    assert (exec_job relax st0 = Some (r1, st1)) as H1 by reflexivity.
    rewrite (run_jobs_S _ _ _ _ _ _ H1). cbn [prepare_replace replace r1 app].
    set (r2 := from_job_returns
                 (get_stable_inserted_structure (Some (td_structure relaxed))
                    el sm (static_maker self) (relax_maker self)
                    (get_charge_density self) ips n_steps 0 (2 + seed)%nat).1).
    assert (∃ st2, exec_job inserted_structure st1 = Some (r2, st2)
                   ∧ history st2 = [(relax, r1); (inserted_structure, r2)])
      as (st2 & H2 & Hh).
    { unfold exec_job.
      cbn [job_call inserted_structure run_call resolve_arg resolve ref_uuid
           ref_attributes getattr output_of app foldl store st1].
      rewrite lookup_insert_eq. eexists. split; reflexivity. }
    rewrite (run_jobs_S _ _ _ _ _ _ H2). by rewrite run_jobs_0.
  - intros fuel j resp sm' Hj Hsm. unfold run_flow in Hj. rewrite Hmake in Hj.
    cbn [fst snd flow_jobs] in Hj.
    assert (Forall (λ p : Job * Response,
                      ∀ sm0, job_matcher p.1 = Some sm0 → sm0 = sm)
                   (history (run_jobs fuel [relax; inserted_structure]
                      {| store := ∅; supply := (2 + seed)%nat;
                         history := [] |}).2)) as Hall.
    { apply (run_jobs_Forall
               (λ j', ∀ sm0, job_matcher j' = Some sm0 → sm0 = sm)).
      - apply matcher_kept.
      - repeat constructor; unfold job_matcher; simpl; congruence.
      - constructor. }
    rewrite Forall_forall in Hall. by apply (Hall _ Hj).
Qed.

(** ** Task names *)

Lemma get_attribute_shift d v a :
  get_attribute (shift_value d v) a = shift_value d <$> get_attribute v a.
Proof.
  destruct v; try done. simpl. by repeat case_decide.
Qed.

Lemma resolve_shift d (σ1 σ2 : gmap Uuid Value) r :
  (∀ u : Uuid, σ2 !! (u + d)%nat = shift_value d <$> σ1 !! u) →
  resolve σ2 (shift_ref d r) = shift_value d <$> resolve σ1 r.
Proof.
  intros Hσ. unfold resolve. simpl. rewrite Hσ.
  generalize (σ1 !! ref_uuid r) as o.
  induction (ref_attributes r) as [| a l IH]; intros o; simpl; [done |].
  rewrite <- IH. f_equal. destruct o as [v |]; simpl; [| done].
  apply get_attribute_shift.
Qed.

Lemma resolve_arg_shift {A} (cast : Value → option A) d
    (σ1 σ2 : gmap Uuid Value) a :
  shift_blind cast →
  (∀ u : Uuid, σ2 !! (u + d)%nat = shift_value d <$> σ1 !! u) →
  resolve_arg cast σ2 (shift_arg d a) = resolve_arg cast σ1 a.
Proof.
  intros Hcast Hσ. destruct a as [a | r]; simpl; [done |].
  rewrite (resolve_shift d σ1 σ2) by done.
  destruct (resolve σ1 r); simpl; [apply Hcast | done].
Qed.

Lemma resolve_summary_shift d (σ1 σ2 : gmap Uuid Value) r :
  (∀ u : Uuid, σ2 !! (u + d)%nat = shift_value d <$> σ1 !! u) →
  resolve_summary σ2 (shift_summary d r)
  = shift_resolved d <$> resolve_summary σ1 r.
Proof.
  intros Hσ. unfold resolve_summary. simpl.
  rewrite !(resolve_shift d σ1 σ2) by done.
  destruct (resolve σ1 (structure r)) as [[] |],
           (resolve σ1 (entry r)) as [[] |],
           (resolve σ1 (dir_name r)) as [[] |]; done.
Qed.

Lemma resolve_value_shift d (σ1 σ2 : gmap Uuid Value) v :
  (∀ u : Uuid, σ2 !! (u + d)%nat = shift_value d <$> σ1 !! u) →
  resolve_value σ2 (shift_value d v) = shift_value d <$> resolve_value σ1 v.
Proof.
  intros Hσ. destruct v; simpl; try done.
  assert (mapM (resolve_summary σ2) (shift_summary d <$> l)
          = fmap (shift_resolved d) <$> mapM (resolve_summary σ1) l) as ->.
  { induction l as [| r l IH]; [done |].
    rewrite fmap_cons. cbn [mapM]. rewrite IH.
    rewrite (resolve_summary_shift d σ1 σ2) by done.
    destruct (resolve_summary σ1 r); [| done].
    by destruct (mapM (resolve_summary σ1) l). }
  by destruct (mapM (resolve_summary σ1) l).
Qed.

(** The selector reads the structures and the entries of the summaries, and
    nothing else. *)
Lemma filter_related {A} (R : A → A → Prop) (P : A → Prop)
    `{∀ x, Decision (P x)} (l l' : list A) :
  (∀ a b, R a b → P a ↔ P b) →
  Forall2 R l l' → Forall2 R (filter P l) (filter P l').
Proof.
  intros HP. induction 1 as [| a b l l' Hab Hl IH]; [constructor |].
  rewrite !filter_cons. destruct (decide (P a)) as [Ha | Ha].
  - rewrite decide_True by by apply (HP a b). by constructor.
  - rewrite decide_False; [done |]. by rewrite <- (HP a b).
Qed.

Lemma min_from_related {A} (R : A → A → Prop) (key : A → Energy)
    (l l' : list A) :
  (∀ a b, R a b → key a = key b) →
  Forall2 R l l' →
  ∀ best best', R best best' →
    R (min_from key best l) (min_from key best' l').
Proof.
  intros Hkey. induction 1 as [| a b l l' Hab Hl IH]; intros best best' Hbest;
    [done |].
  simpl. apply IH. rewrite (Hkey a b Hab), (Hkey best best' Hbest).
  by destruct (energy_lt _ _).
Qed.

Lemma get_min_energy_structure_uuid_blind (l l' : list Summary) ref sm :
  Forall2 (λ a b : Summary, structure a = structure b ∧ entry a = entry b)
          l l' →
  get_min_energy_structure l ref sm = get_min_energy_structure l' ref sm.
Proof.
  intros Hl. unfold get_min_energy_structure.
  set (R := λ a b : Summary, structure a = structure b ∧ entry a = entry b)
    in *.
  assert (Forall2 R
            (filter (λ summary : Summary,
                       fit sm ref (structure summary) = true) l)
            (filter (λ summary : Summary,
                       fit sm ref (structure summary) = true) l')) as Hf.
  { apply filter_related; [| done]. by intros a b [-> _]. }
  destruct Hf as [| a b k k' Hab Hk]; [done |].
  assert (R (min_from (λ x : Summary, energy_per_atom (entry x)) a k)
            (min_from (λ x : Summary, energy_per_atom (entry x)) b k'))
    as [-> _].
  { apply min_from_related; [| done | done]. by intros ? ? [_ ->]. }
  done.
Qed.

Lemma shift_resolved_related d (l : list Summary) :
  Forall2 (λ a b : Summary, structure a = structure b ∧ entry a = entry b)
          l (shift_resolved d <$> l).
Proof. apply Forall2_fmap_r, Forall_Forall2_diag, Forall_forall. done. Qed.

Lemma relax_job_shift maker tag (u : Uuid) d ii k s :
  shift_job d (relax_job maker tag u ii k s) = relax_job maker tag (u + d) ii k s.
Proof. unfold shift_job, relax_job; simpl. f_equal. lia. Qed.

(** What a job function builds from the store of the shifted run, with the
    uuids drawn [d] higher, is the shifted build. *)
Lemma run_call_shift d (σ1 σ2 : gmap Uuid Value) c :
  (∀ u : Uuid, σ2 !! (u + d)%nat = shift_value d <$> σ1 !! u) →
  match run_call σ1 c with
  | Some m =>
    ∃ m', run_call σ2 (shift_call d c) = Some m'
          ∧ ∀ u : Uuid,
              m' (u + d)%nat = (shift_returns d (m u).1, ((m u).2 + d)%nat)
  | None => run_call σ2 (shift_call d c) = None
  end.
Proof.
  intros Hσ.
  destruct c as [| | | ? maker tag | summaries ref sm
                 | ? el sm sta rel gcd ips n k | v]; simpl.
  - eexists. split; [reflexivity | done].
  - rewrite (resolve_arg_shift _ d σ1 σ2) by (done || by intros ? []).
    destruct (resolve_arg _ _ _); simpl; [| done].
    eexists. split; [reflexivity | done].
  - rewrite (resolve_arg_shift _ d σ1 σ2) by (done || by intros ? []).
    destruct (resolve_arg _ _ _); simpl; [| done].
    eexists. split; [reflexivity | done].
  - rewrite (resolve_arg_shift _ d σ1 σ2) by (done || by intros ? []).
    destruct (resolve_arg _ _ _) as [l |]; simpl; [| done].
    eexists. split; [reflexivity |]. intros u.
    unfold get_relaxed_job_summaries, bind, ret. rewrite !relax_loop_closed.
    cbv zeta. cbn [fst snd shift_returns shift_response shift_flow output
                   replace flow_jobs flow_output fmap option_fmap option_map
                   shift_value].
    assert (imap (relax_job maker tag (u + d) 0) l
            = shift_job d <$> imap (relax_job maker tag u 0) l) as ->.
    { rewrite fmap_imap. apply imap_ext. intros i x _. simpl.
      by rewrite relax_job_shift. }
    f_equal; [| lia]. unfold shift_response, shift_flow; simpl.
    rewrite <- !list_fmap_compose. reflexivity.
  - assert (match resolve_arg as_summaries σ1 summaries with
            | Some l =>
              ∃ l', resolve_arg as_summaries σ2 (shift_arg d summaries) = Some l'
                    ∧ Forall2 (λ a b : Summary,
                                 structure a = structure b ∧ entry a = entry b)
                              l l'
            | None => resolve_arg as_summaries σ2 (shift_arg d summaries) = None
            end) as Hl.
    { destruct summaries as [l | r]; simpl.
      - exists l. split; [done |]. by apply Forall_Forall2_diag, Forall_forall.
      - rewrite (resolve_shift d σ1 σ2) by done.
        destruct (resolve σ1 r) as [[] |]; simpl; try done.
        eexists. split; [reflexivity |]. apply shift_resolved_related. }
    destruct (resolve_arg as_summaries σ1 summaries) as [l |]; simpl.
    + destruct Hl as (l' & -> & Hl). simpl.
      eexists. split; [reflexivity |]. intros u. unfold ret. simpl.
      rewrite <- (get_min_energy_structure_uuid_blind l l') by done.
      unfold get_min_energy_structure. by destruct (filter _ l).
    + by rewrite Hl.
  - rewrite (resolve_arg_shift _ d σ1 σ2) by (done || by intros ? []).
    destruct (resolve_arg _ _ _) as [o |]; simpl; [| done].
    eexists. split; [reflexivity |]. intros u.
    destruct (step_cases o el sm sta rel gcd ips n k u)
      as [[Hu Hg] | (s & -> & Hn & Hu)].
    + by rewrite Hu, guard_returns_None.
    + by rewrite Hu, step_expands.
  - rewrite (resolve_value_shift d σ1 σ2) by done.
    destruct (resolve_value σ1 v) as [v' |]; simpl; [| done].
    eexists. split; [reflexivity | done].
Qed.

Lemma from_job_returns_shift d r :
  from_job_returns (shift_returns d r) = shift_response d (from_job_returns r).
Proof. by destruct r. Qed.

Lemma prepare_replace_shift d j resp :
  prepare_replace (shift_job d j) (shift_response d resp)
  = shift_job d <$> prepare_replace j resp.
Proof.
  unfold prepare_replace, shift_response. cbn [replace].
  destruct (replace resp) as [fl |]; simpl; [| done].
  rewrite fmap_app. f_equal. by destruct (flow_output fl).
Qed.

Lemma exec_job_shift d j st1 st2 :
  shifted d st1 st2 →
  match exec_job j st1 with
  | Some (resp, st1') =>
    ∃ st2', exec_job (shift_job d j) st2 = Some (shift_response d resp, st2')
            ∧ shifted d st1' st2'
  | None => exec_job (shift_job d j) st2 = None
  end.
Proof.
  intros [Hσ Hu Hh]. unfold exec_job. cbn [shift_job job_call job_uuid].
  pose proof (run_call_shift d (store st1) (store st2) (job_call j) Hσ) as Hrun.
  destruct (run_call (store st1) (job_call j)) as [m |].
  - destruct Hrun as (m' & -> & Hm'). cbn [mbind option_bind].
    rewrite Hu, Hm'. cbn [fst snd]. rewrite from_job_returns_shift.
    eexists. split; [reflexivity |]. split; cbn [store supply history].
    + intros u. destruct (decide (u = job_uuid j)) as [-> | Hne].
      * by rewrite !lookup_insert_eq.
      * rewrite !lookup_insert_ne by lia. apply Hσ.
    + done.
    + by rewrite fmap_app, Hh.
  - by rewrite Hrun.
Qed.

(** The run whose uuids start [d] higher is, job for job, the shifted
    run. *)
Lemma run_jobs_shift d fuel queue st1 st2 :
  shifted d st1 st2 →
  shifted d (run_jobs fuel queue st1).2
            (run_jobs fuel (shift_job d <$> queue) st2).2.
Proof.
  revert queue st1 st2. induction fuel as [| fuel IH]; intros queue st1 st2 Hst.
  - by destruct queue.
  - destruct queue as [| j rest]; [done |]. rewrite fmap_cons. cbn [run_jobs].
    pose proof (exec_job_shift d j st1 st2 Hst) as Hexec.
    destruct (exec_job j st1) as [[resp st1'] |].
    + destruct Hexec as (st2' & -> & Hst').
      rewrite prepare_replace_shift, <- fmap_app. by apply IH.
    + by rewrite Hexec.
Qed.

Lemma make_shift self structure el n_steps ips (seed : Uuid) d :
  make self structure el n_steps ips (seed + d)%nat
  = (shift_flow d (make self structure el n_steps ips seed).1,
     ((make self structure el n_steps ips seed).2 + d)%nat).
Proof. unfold make, bind, ret. by destruct (bulk_relax_maker self). Qed.

Lemma names_shifted d st1 st2 :
  shifted d st1 st2 → names (history st2) = names (history st1).
Proof.
  intros [_ _ ->]. unfold names. by rewrite <- list_fmap_compose.
Qed.

Lemma run_flow_names_shift fuel self structure el n_steps ips (seed : Uuid) d :
  names (history (run_flow fuel (make self structure el n_steps ips)
                    (seed + d)%nat).2)
  = names (history (run_flow fuel (make self structure el n_steps ips) seed).2).
Proof.
  unfold run_flow. rewrite make_shift. cbn [fst snd shift_flow flow_jobs].
  apply (names_shifted d), run_jobs_shift. by split.
Qed.

(** C9: names depend on the depth and the index alone.  The relax job of
    candidate [i] in the fan-out tagged [t] is named
    [<name given by the relax maker> t (i)], that is [relax t (i)] for a
    maker that names its jobs [relax]; the six jobs a step emits all end in
    the step's tag, its inserted count, which is also the tag handed to the
    fan-out, and the next step gets the count plus one; and two runs of one
    request that draw different uuids run jobs of the same names in the same
    order. *)
Theorem task_names_deterministic :
  (∀ (structures : list Structure) relax_maker tag (u : Uuid) (i : nat) s,
     structures !! i = Some s →
     ∃ jobs j,
       (flow_jobs <$> replace (from_job_returns
          (get_relaxed_job_summaries structures relax_maker tag u).1))
       = Some jobs
       ∧ jobs !! i = Some j
       ∧ job_call j = call_make relax_maker s
       ∧ job_name j
         = maker_name relax_maker +:+ " " +:+ tag +:+ " (" +:+ pretty i +:+ ")")
  ∧ (∀ s el sm sta rel gcd ips n_steps k (u : Uuid),
       budget_exhausted n_steps = false →
       ∃ jobs fan_out next arg arg',
         (flow_jobs <$> replace (from_job_returns
            (get_stable_inserted_structure (Some s) el sm sta rel gcd ips
               n_steps k u).1)) = Some jobs
         ∧ job_name <$> jobs
           = [ maker_name sta +:+ " " +:+ pretty k;
               "get_charge_density_job" +:+ " " +:+ pretty k;
               "get_inserted_structures" +:+ " " +:+ pretty k;
               "get_relaxed_job_summaries" +:+ " " +:+ pretty k;
               "get_min_energy_structure" +:+ " " +:+ pretty k;
               "get_stable_inserted_structure" +:+ " " +:+ pretty k ]
         ∧ jobs !! 3%nat = Some fan_out
         ∧ job_call fan_out
           = call_get_relaxed_job_summaries arg rel (pretty k)
         ∧ jobs !! 5%nat = Some next
         ∧ job_call next
           = call_get_stable_inserted_structure arg' el sm sta rel gcd ips
               ((λ n, n - 1) <$> n_steps) (k + 1))
  ∧ (∀ fuel self structure el n_steps ips (seed1 seed2 : Uuid),
       names (history (run_flow fuel (make self structure el n_steps ips)
                         seed1).2)
       = names (history (run_flow fuel (make self structure el n_steps ips)
                           seed2).2)).
Proof.
  split_and!.
  - intros structures relax_maker tag u i s Hi.
    unfold get_relaxed_job_summaries, bind, ret. rewrite relax_loop_closed.
    cbv zeta. cbn [fst snd from_job_returns replace fmap option_fmap option_map
                   flow_jobs].
    eexists _, (relax_job relax_maker tag u 0 i s). split_and!.
    + reflexivity.
    + by rewrite list_lookup_imap, Hi.
    + done.
    + done.
  - intros s el sm sta rel gcd ips n_steps k u Hn. rewrite step_expands by done.
    do 5 eexists. split_and!; reflexivity.
  - intros fuel self structure el n_steps ips seed1 seed2.
    destruct (decide (seed1 ≤ seed2)%nat) as [Hle | Hgt].
    + replace seed2 with (seed1 + (seed2 - seed1))%nat by lia.
      symmetry. apply run_flow_names_shift.
    + replace seed1 with (seed2 + (seed1 - seed2))%nat by lia.
      apply run_flow_names_shift.
Qed.

End Properties.

(** * The properties at work on the small instance *)

Import Toy.

(** The three candidates of the host with the energies -10.2, -9.8 and
    -11.0. *)
Example toy_summaries :
  imap doc_summary (doc <$> ["H0"; "H1"; "H2"])
  = [ {| structure := "H0"; entry := -102; dir_name := "H0"; uuid := 0%nat |};
      {| structure := "H1"; entry := -98; dir_name := "H1"; uuid := 1%nat |};
      {| structure := "H2"; entry := -110; dir_name := "H2"; uuid := 2%nat |} ].
Proof. reflexivity. Qed.

(** The fan-out for two candidates, with 8 the next free uuid: each summary
    holds three references into its relax job and the uuid of the job. *)
Example toy_fan_out :
  output (from_job_returns
            (get_relaxed_job_summaries ["H0"; "H1"] relax "0" 8%nat).1)
  = VSummaryRefs
      [ {| structure := getattr (output_of 8%nat) "structure";
           entry := getattr (output_of 8%nat) "entry";
           dir_name := getattr (output_of 8%nat) "dir_name";
           uuid := 8%nat |};
        {| structure := getattr (output_of 9%nat) "structure";
           entry := getattr (output_of 9%nat) "entry";
           dir_name := getattr (output_of 9%nat) "dir_name";
           uuid := 9%nat |} ].
Proof. reflexivity. Qed.

(** Of the survivors 0 and 2 the selector takes the lower, 2. *)
Example toy_selection :
  get_min_energy_structure (imap doc_summary (doc <$> ["H0"; "H1"; "H2"])) ""
    (matcher ["H0"; "H2"])
  = Responded {| output := VStructure "H2"; replace := None |}.
Proof. reflexivity. Qed.

(** The names of a run of two rounds. *)
Example toy_run_names :
  names (history (run_flow 100 (make (maker ["H0"; "H2"]) "" "H" (Some 2) 4)
                    0%nat).2)
  = [ "relax"; "get_stable_inserted_structure";
      "static 0"; "get_charge_density_job 0"; "get_inserted_structures 0";
      "get_relaxed_job_summaries 0";
      "relax 0 (0)"; "relax 0 (1)"; "relax 0 (2)"; "store_inputs";
      "get_min_energy_structure 0"; "get_stable_inserted_structure 0";
      "static 1"; "get_charge_density_job 1"; "get_inserted_structures 1";
      "get_relaxed_job_summaries 1";
      "relax 1 (0)"; "relax 1 (1)"; "relax 1 (2)"; "relax 1 (3)";
      "store_inputs";
      "get_min_energy_structure 1"; "get_stable_inserted_structure 1" ].
Proof. vm_compute. reflexivity. Qed.

(** C1, as stated, fails: a step entered with the budget 0 on the structure
    ["C4"] returns [None], not ["C4"]; and in the run of two rounds above,
    which the selector stops after the structure ["H2"] was reached, every
    recursive step resolves to [None]. *)
Lemma benign_stop_loses_the_structure :
  let r := from_job_returns
             (get_stable_inserted_structure (Some "C4") "H" (matcher [])
                static relax (λ dir, dir) 4 (Some 0) 0 0%nat).1 in
  output r = VNone
  ∧ output r ≠ VStructure "C4"
  ∧ step_outputs
      (history (run_flow 100 (make (maker ["H0"; "H2"]) "" "H" (Some 2) 4)
                  0%nat).2)
    = [ ("get_stable_inserted_structure", VNone);
        ("get_stable_inserted_structure 0", VNone);
        ("get_stable_inserted_structure 1", VNone) ].
Proof. split_and!; [reflexivity | discriminate | vm_compute; reflexivity]. Qed.

Lemma benign_stop_returns_None_witness :
  get_stable_inserted_structure (Some "C4") "H" (matcher []) static relax
    (λ dir, dir) 4 (Some 0) 0 7%nat
  = (Returned VNone, 7%nat).
Proof.
  destruct (benign_stop_returns_None (types := toy_types)
              (collaborators := toy_collaborators)) as (Hzero & _ & _ & _).
  apply Hzero. lia.
Defined.

(** C6, as stated, fails: with a budget of 2 and a matcher that accepts
    nothing, the first selector finds no survivor, so that no recursion
    succeeds; yet the step that receives the selector's [None] holds the
    budget 1. *)
Lemma selector_stop_consumes_a_decrement :
  let h := history (run_flow 100 (make (maker []) "" "H" (Some 2) 4) 0%nat).2 in
  (λ p, (job_name p.1, step_budget p.1, output p.2)) <$> drop 10 h
  = [ ("get_min_energy_structure 0", None, VNone);
      ("get_stable_inserted_structure 0", Some (Some 1), VNone) ]
  ∧ (step_budget <$> (fst <$> h)) !! 1%nat = Some (Some (Some 2)).
Proof. split; vm_compute; reflexivity. Qed.

Lemma counter_decrements_at_every_expansion_witness :
  0 < 2
  ∧ ∃ first_five next,
      (flow_jobs <$> replace (from_job_returns
         (get_stable_inserted_structure (Some "C4") "H" (matcher []) static
            relax (λ dir, dir) 4 (Some 2) 0 0%nat).1))
      = Some (first_five ++ [next])
      ∧ Forall (λ j, step_budget j = None) first_five
      ∧ job_call next
        = call_get_stable_inserted_structure
            (Ref (output_of 4%nat)) "H" (matcher []) static relax (λ dir, dir)
            4 (Some 1) 1.
Proof.
  split; [lia |].
  destruct (counter_decrements_at_every_expansion (types := toy_types)
              (collaborators := toy_collaborators))
    as (_ & Hnext & _).
  apply (Hnext "C4" "H" (matcher []) static relax (λ dir, dir) 4 (Some 2) 0
           0%nat).
  reflexivity.
Defined.

(** C7, as stated, fails: the response of the fan-out stage carries an
    output and a replacement at once, and the response of a step that its
    guard stops carries neither. *)
Lemma fan_out_carries_both :
  let fan_out := from_job_returns
                   (get_relaxed_job_summaries ["H0"] relax "0" 0%nat).1 in
  let stopped := from_job_returns
                   (get_stable_inserted_structure None "H" (matcher []) static
                      relax (λ dir, dir) 4 (Some 2) 0 0%nat).1 in
  (carries_output fan_out = true ∧ carries_replace fan_out = true)
  ∧ (carries_output stopped = false ∧ carries_replace stopped = false).
Proof. by vm_compute. Qed.

Lemma stage_responses_shape_witness :
  let r := from_job_returns
             (get_min_energy_structure
                (imap doc_summary (doc <$> ["H0"; "H1"; "H2"])) ""
                (matcher ["H0"; "H2"])) in
  carries_replace r = false ∧ carries_output r = true.
Proof.
  destruct (stage_responses_shape (types := toy_types)
              (collaborators := toy_collaborators)) as (_ & _ & Hsel & _).
  destruct (Hsel (imap doc_summary (doc <$> ["H0"; "H1"; "H2"])) ""
              (matcher ["H0"; "H2"])) as [Hreplace Houtput].
  split; [exact Hreplace |]. apply Houtput.
  exists (doc_summary 0%nat (doc "H0")). split; [left | reflexivity].
Defined.

(** C8: the stage breaks the claim, and its own docstring (the cap is "the
    maximum number of ion insertion sites to attempt"), on a negative cap,
    which it does not check: of the three candidates generated for the host,
    the cap -1 keeps the first two, where the first [min(3, -1)] candidates
    are none. *)
Lemma negative_cap_keeps_candidates :
  let generated := inserted_structures "" "H" None in
  generated = ["H0"; "H1"; "H2"]
  ∧ get_inserted_structures "" "H" (-1) None
    = Returned (VStructures ["H0"; "H1"])
  ∧ get_inserted_structures "" "H" (-1) None
    ≠ Returned (VStructures
                  (take (Z.to_nat (Z.min (Z.of_nat (length generated)) (-1)))
                        generated)).
Proof. split_and!; [reflexivity | reflexivity | discriminate]. Qed.

Lemma get_inserted_structures_leading_witness :
  0 ≤ 2
  ∧ get_inserted_structures "" "H" 2 None = Returned (VStructures ["H0"; "H1"]).
Proof.
  split; [lia |].
  destruct (get_inserted_structures_leading (types := toy_types)
              (collaborators := toy_collaborators) "" "H" 2 None)
    as (Hcap & _ & _).
  apply Hcap. lia.
Defined.

Lemma get_min_energy_structure_first_minimum_witness :
  StrictWeakOrder Z.ltb
  ∧ ∃ (i : nat) best,
      (imap doc_summary (doc <$> ["H0"; "H1"; "H2"])) !! i = Some best
      ∧ get_min_energy_structure
          (imap doc_summary (doc <$> ["H0"; "H1"; "H2"])) ""
          (matcher ["H0"; "H2"])
        = Responded {| output := VStructure (structure best);
                       replace := None |}.
Proof.
  assert (StrictWeakOrder Z.ltb) as Horder.
  { split.
    - intros a. apply Z.ltb_irrefl.
    - intros a b c Hab%Z.ltb_lt Hbc%Z.ltb_lt. apply Z.ltb_lt. lia.
    - intros a b c Hab%Z.ltb_lt. destruct (Z.ltb_spec a c); [by left | right].
      apply Z.ltb_lt. lia. }
  split; [exact Horder |].
  destruct (get_min_energy_structure_first_minimum (types := toy_types)
              (collaborators := toy_collaborators) Horder
              (imap doc_summary (doc <$> ["H0"; "H1"; "H2"])) ""
              (matcher ["H0"; "H2"])) as [_ Hmin].
  destruct Hmin as (i & best & Hi & _ & Hresult & _).
  { exists (doc_summary 0%nat (doc "H0")). split; [left | reflexivity]. }
  by exists i, best.
Defined.

Lemma get_relaxed_job_summaries_one_per_candidate_witness :
  ∃ jobs outputs,
    (get_relaxed_job_summaries ["H0"; "H1"] relax "0" 8%nat).1
    = Responded {| output := VSummaryRefs outputs;
                   replace := Some {| flow_jobs := jobs;
                                      flow_output := VSummaryRefs outputs |} |}
    ∧ length jobs = 2%nat ∧ length outputs = 2%nat.
Proof.
  destruct (get_relaxed_job_summaries_one_per_candidate (types := toy_types)
              ["H0"; "H1"] relax "0" 8%nat)
    as (jobs & outputs & Hresp & Hjobs & Houtputs & _).
  by exists jobs, outputs.
Defined.

Lemma guard_is_a_no_op_witness :
  (Some "C4" = None ∨ ∃ n, Some 0 = Some n ∧ n ≤ 0)
  ∧ ∀ u : Uuid,
      get_stable_inserted_structure (Some "C4") "H" (matcher []) static relax
        (λ dir, dir) 4 (Some 0) 0 u
      = (Returned VNone, u).
Proof.
  assert (Some "C4" = None ∨ ∃ n, Some 0 = Some n ∧ n ≤ 0) as Hguard.
  { right. exists 0. split; [reflexivity | lia]. }
  split; [exact Hguard |].
  destruct (guard_is_a_no_op (types := toy_types)
              (collaborators := toy_collaborators) (Some "C4") "H" (matcher [])
              static relax (λ dir, dir) 4 (Some 0) 0 Hguard) as (Hret & _ & _).
  exact Hret.
Defined.

(** In the run of two rounds the bound of C2 is reached. *)
Example toy_two_levels :
  run_flow 100 (make (maker ["H0"; "H2"]) "" "H" (Some 2) 4) 0%nat
  = run_flow 23 (make (maker ["H0"; "H2"]) "" "H" (Some 2) 4) 0%nat
  ∧ (run_flow 23 (make (maker ["H0"; "H2"]) "" "H" (Some 2) 4) 0%nat).1
    = Finished
  ∧ expansions
      (history (run_flow 23 (make (maker ["H0"; "H2"]) "" "H" (Some 2) 4)
                  0%nat).2) = 2%nat.
Proof. split_and!; vm_compute; reflexivity. Qed.

Lemma recursion_depth_bounded_witness :
  0 ≤ 2
  ∧ (expansions
       (history (run_flow 100 (make (maker ["H0"; "H2"]) "" "H" (Some 2%Z) 4%Z)
                   0%nat).2) ≤ 2)%nat.
Proof.
  split; [lia |].
  destruct (recursion_depth_bounded (types := toy_types)
              (collaborators := toy_collaborators) 2 ltac:(lia))
    as (_ & _ & _ & Hflow & _).
  apply (Hflow 100%nat (maker ["H0"; "H2"]) "" "H" 4 0%nat).
Defined.

Lemma task_names_deterministic_witness :
  ∃ jobs j,
    (flow_jobs <$> replace (from_job_returns
       (get_relaxed_job_summaries ["H0"; "H1"; "H2"] relax "1" 17%nat).1))
    = Some jobs
    ∧ jobs !! 2%nat = Some j
    ∧ job_call j = call_make relax "H2"
    ∧ job_name j = "relax 1 (2)".
Proof.
  destruct (task_names_deterministic (types := toy_types)
              (collaborators := toy_collaborators)) as (Hrelax & _ & _).
  apply (Hrelax ["H0"; "H1"; "H2"] relax "1" 17%nat 2%nat "H2").
  reflexivity.
Defined.

Lemma make_relaxes_first_witness :
  let self :=
    {| relax_maker := relax; static_maker := static;
       bulk_relax_maker := Some static; name := "ion insertion";
       structure_matcher := {| sm_ignored_species := ["Li"];
                               sm_settings := ["H0"; "H2"] |};
       get_charge_density := λ dir, dir |} in
  let sm := _add_ignored_species (structure_matcher self) "H" in
  "Li" ∈ sm_ignored_species (structure_matcher self)
  ∧ "Li" ∈ sm_ignored_species sm
  ∧ "H" ∈ sm_ignored_species sm
  ∧ (job_name <$> flow_jobs (make self "" "H" (Some 2) 4 0%nat).1)
    = ["static"; "get_stable_inserted_structure"].
Proof.
  intros self sm.
  assert ("Li" ∈ sm_ignored_species (structure_matcher self)) as HLi by left.
  destruct (make_relaxes_first (types := toy_types)
              (collaborators := toy_collaborators) self "" "H" (Some 2) 4
              0%nat) as (Hmake & _ & Hin & Hkept & _).
  split_and!; [exact HLi | exact (Hkept "Li" HLi) | exact Hin |].
  by rewrite Hmake.
Defined.

(** * Further properties of the insertion workflow *)

Section MoreProperties.
Context {types : Types} {collaborators : Collaborators}.

(** ** The ignored species *)

(** [_add_ignored_species] adds the one species and nothing else, and the
    list it leaves holds no species twice, whatever the list it found. *)
Theorem _add_ignored_species_exact sm species :
  (∀ x, x ∈ sm_ignored_species (_add_ignored_species sm species)
        ↔ x ∈ sm_ignored_species sm ∨ x = str species)
  ∧ NoDup (sm_ignored_species (_add_ignored_species sm species)).
Proof.
  unfold _add_ignored_species, py_set_add, py_set; simpl. split.
  - intros x. case_decide as Hin.
    + rewrite elem_of_remove_dups. split; [by left |].
      intros [Hx | ->]; [done |]. by rewrite elem_of_remove_dups in Hin.
    + rewrite elem_of_app, elem_of_remove_dups, list_elem_of_singleton. done.
  - case_decide as Hin; [apply NoDup_remove_dups |].
    apply NoDup_app. split_and!.
    + apply NoDup_remove_dups.
    + intros x Hx Hx'. apply list_elem_of_singleton in Hx' as ->. done.
    + apply NoDup_singleton.
Qed.

(** ** Candidate generation *)

(** With a cap [c ≥ 0] the stage returns at most [c] candidates, and all
    of them when the generator proposes no more than [c]; with no candidate
    generated it returns none, whatever the cap; and it returns nothing the
    generator did not propose. *)
Theorem get_inserted_structures_bounded chg sp (c : Z) gen :
  let generated := inserted_structures chg sp gen in
  ∃ kept,
    get_inserted_structures chg sp c gen = Returned (VStructures kept)
    ∧ (0 ≤ c → (length kept ≤ Z.to_nat c)%nat)
    ∧ (Z.of_nat (length generated) ≤ c → kept = generated)
    ∧ (generated = [] → kept = [])
    ∧ (∀ s, s ∈ kept →
         ∃ d, d ∈ default default_generate gen chg [sp]
              ∧ s = defect_structure d).
Proof.
  intros generated. exists (slice_to generated c). split_and!.
  - done.
  - intros Hc. rewrite slice_to_nonneg, length_take by done. lia.
  - intros Hc. rewrite slice_to_nonneg by lia.
    rewrite Z.min_l, Nat2Z.id by done. apply firstn_all.
  - intros ->. unfold slice_to. case_bool_decide; apply take_nil.
  - intros s Hs.
    assert (s ∈ generated) as Hgen.
    { destruct (slice_to_prefix generated c) as [rest Hrest].
      rewrite Hrest. apply elem_of_app. by left. }
    unfold generated, inserted_structures in Hgen.
    apply list_elem_of_fmap in Hgen as (d & -> & Hd). by exists d.
Qed.

(** ** The selector *)

(** A survivor whose energy is strictly below that of every other survivor
    is the one selected, wherever it stands in the sequence; so reordering
    the summaries does not change the selection then. *)
Theorem unique_minimum_is_selected
    (summaries : list Summary) ref_structure sm (m : Summary) :
  StrictWeakOrder energy_lt →
  m ∈ summaries →
  fit sm ref_structure (structure m) = true →
  (∀ s : Summary, s ∈ summaries → fit sm ref_structure (structure s) = true →
     s = m ∨ energy_lt (energy_per_atom (entry m))
                       (energy_per_atom (entry s)) = true) →
  ∀ reordered, reordered ≡ₚ summaries →
    get_min_energy_structure reordered ref_structure sm
    = Responded {| output := VStructure (structure m); replace := None |}.
Proof.
  intros Horder Hm Hfit Hunique reordered Hperm.
  unfold get_min_energy_structure.
  set (survives := λ s : Summary, fit sm ref_structure (structure s) = true).
  assert (m ∈ filter survives reordered) as Hin.
  { apply list_elem_of_filter. split; [done |]. by rewrite Hperm. }
  destruct (filter survives reordered) as [| first others] eqn:Hf.
  { by apply elem_of_nil in Hin. }
  set (e := λ x : Summary, energy_per_atom (entry x)).
  destruct (min_from_first_minimum Horder e others first)
    as (pre & post & Heq & Hpre & Hpost).
  remember (min_from e first others) as best eqn:Hbest. clear Hbest.
  assert (best ∈ filter survives reordered) as Hbest.
  { rewrite Hf, Heq. apply elem_of_app. right. left. }
  apply list_elem_of_filter in Hbest as [Hbest_fit Hbest_in].
  rewrite Hperm in Hbest_in.
  destruct (Hunique best Hbest_in Hbest_fit) as [-> | Hlt]; [done |].
  exfalso. rewrite Heq in Hin.
  apply elem_of_app in Hin as [Hin | [-> | Hin]%elem_of_cons].
  - apply Hpre in Hin. apply (lt_asym Horder) in Hin. unfold e in Hin.
    congruence.
  - by rewrite (lt_irrefl _ Horder) in Hlt.
  - apply Hpost in Hin. unfold e in Hin. congruence.
Qed.

(** ** Names *)

Lemma string_app_cancel_r (a b c : string) : a +:+ c = b +:+ c → a = b.
Proof.
  assert (∀ x y : string,
            String.length (x +:+ y) = (String.length x + String.length y)%nat)
    as Hlen.
  { intros x y. induction x as [| ch x IH]; simpl; [done | by rewrite IH]. }
  revert b. induction a as [| ch a IH]; intros [| ch' b] Heq; simpl in Heq.
  - done.
  - apply (f_equal String.length) in Heq. rewrite !Hlen in Heq. simpl in Heq. lia.
  - apply (f_equal String.length) in Heq. rewrite !Hlen in Heq. simpl in Heq. lia.
  - injection Heq as -> Heq. f_equal. by apply IH.
Qed.

Lemma no_space_pretty_N_go (x : N) (s : string) :
  no_space s → no_space (pretty_N_go x s).
Proof.
  revert s. induction (N.lt_wf_0 x) as [x _ IH]; intros s Hs.
  destruct (decide (x = 0)%N) as [-> | Hx]; [by rewrite pretty_N_go_0 |].
  rewrite pretty_N_go_step by lia. apply IH.
  - apply N.div_lt; lia.
  - simpl. split; [| done]. unfold pretty_N_char. by repeat case_match.
Qed.

Lemma no_space_pretty_N (x : N) : no_space (pretty x).
Proof.
  unfold pretty, pretty_N. case_decide; [by simpl |].
  by apply no_space_pretty_N_go.
Qed.

Lemma no_space_pretty_Z (x : Z) : no_space (pretty x).
Proof.
  unfold pretty, pretty_Z. destruct x as [| p | p].
  - by simpl.
  - apply no_space_pretty_N.
  - simpl. split; [done |]. apply no_space_pretty_N.
Qed.

Lemma split_at_space (a a' r r' : string) :
  no_space a → no_space a' →
  a +:+ String " " r = a' +:+ String " " r' → a = a' ∧ r = r'.
Proof.
  revert a'. induction a as [| ch a IH]; intros [| ch' a'] Ha Ha' Heq;
    simpl in *.
  - by injection Heq as ->.
  - injection Heq as <- _. by destruct Ha'.
  - injection Heq as -> _. by destruct Ha.
  - injection Heq as -> Heq. destruct Ha as [_ Ha], Ha' as [_ Ha'].
    destruct (IH a' Ha Ha' Heq) as [-> ->]. done.
Qed.

Lemma relax_name_inj (base : string) (k k' : Z) (i i' : nat) :
  base +:+ " " +:+ pretty k +:+ " (" +:+ pretty i +:+ ")"
  = base +:+ " " +:+ pretty k' +:+ " (" +:+ pretty i' +:+ ")" →
  k = k' ∧ i = i'.
Proof.
  intros Heq. apply (inj (String.app base)) in Heq. simpl in Heq.
  injection Heq as Heq.
  apply split_at_space in Heq as [Hk Hi]; [| apply no_space_pretty_Z ..].
  split; [by apply (inj pretty) |].
  injection Hi as Hi. apply string_app_cancel_r in Hi. by apply (inj pretty).
Qed.

(** The names given by the fan-outs of the steps identify the step and the
    candidate: the relax jobs of candidates [i] and [i'], in the fan-outs
    tagged with the inserted counts [k] and [k'], bear the same name only if
    [k = k'] and [i = i']; so the names within one fan-out are pairwise
    distinct. *)
Theorem relax_names_identify_step_and_candidate
    relax_maker (structures structures' : list Structure) (k k' : Z)
    (u u' : Uuid) jobs jobs' :
  (flow_jobs <$> replace (from_job_returns
     (get_relaxed_job_summaries structures relax_maker (pretty k) u).1))
  = Some jobs →
  (flow_jobs <$> replace (from_job_returns
     (get_relaxed_job_summaries structures' relax_maker (pretty k') u').1))
  = Some jobs' →
  (∀ (i i' : nat) j j',
     jobs !! i = Some j → jobs' !! i' = Some j' →
     job_name j = job_name j' → k = k' ∧ i = i')
  ∧ NoDup (job_name <$> jobs).
Proof.
  unfold get_relaxed_job_summaries, bind, ret. rewrite !relax_loop_closed.
  cbv zeta. cbn [fst snd from_job_returns replace fmap option_fmap option_map
                 flow_jobs].
  intros [= <-] [= <-].
  assert (∀ l (v : Uuid) (t : Z) (i : nat) j,
            imap (relax_job relax_maker (pretty t) v 0) l !! i = Some j →
            job_name j = maker_name relax_maker +:+ " " +:+ pretty t
                         +:+ " (" +:+ pretty i +:+ ")") as Hname.
  { intros l v t i j Hj. rewrite list_lookup_imap in Hj.
    destruct (l !! i); by simplify_eq/=. }
  split.
  - intros i i' j j' Hj Hj' Heq.
    rewrite (Hname _ _ _ _ _ Hj), (Hname _ _ _ _ _ Hj') in Heq.
    by apply relax_name_inj in Heq.
  - apply NoDup_alt. intros i i' x Hi Hi'.
    rewrite list_lookup_fmap in Hi, Hi'.
    destruct (imap _ structures !! i) as [j |] eqn:Hj; [| done].
    destruct (imap _ structures !! i') as [j' |] eqn:Hj'; [| done].
    simpl in Hi, Hi'. injection Hi as <-. injection Hi' as Hi'.
    rewrite (Hname _ _ _ _ _ Hj), (Hname _ _ _ _ _ Hj') in Hi'.
    symmetry in Hi'. by apply relax_name_inj in Hi' as [_ ?].
Qed.

(** ** One round through the job manager *)

Lemma exec_job_eq j st m :
  run_call (store st) (job_call j) = Some m →
  exec_job j st
  = Some (from_job_returns (m (supply st)).1,
          {| store := <[ job_uuid j := output (from_job_returns (m (supply st)).1) ]>
                        (store st);
             supply := (m (supply st)).2;
             history := history st ++ [(j, from_job_returns (m (supply st)).1)] |}).
Proof. intros Hrun. unfold exec_job. by rewrite Hrun. Qed.

Lemma selector_outputs_app h h' :
  selector_outputs (h ++ h') = selector_outputs h ++ selector_outputs h'.
Proof. apply omap_app. Qed.

Lemma relaxed_related rel (v w : Uuid) cands :
  Forall2 (λ a b : Summary, structure a = structure b ∧ entry a = entry b)
          (relaxed rel v cands) (relaxed rel w cands).
Proof.
  apply Forall2_same_length_lookup. unfold relaxed.
  split; [by rewrite !length_imap |].
  intros i a b Ha Hb. rewrite list_lookup_imap in Ha.
  rewrite list_lookup_imap in Hb.
  destruct (cands !! i); by simplify_eq/=.
Qed.

(** Whatever uuids the relax jobs drew, the selector answers with the pick
    of the round. *)
Lemma value_of_select s el sm sta rel gcd ips (v : Uuid) :
  output (from_job_returns
            (get_min_energy_structure
               (relaxed rel v (candidates s el sta gcd ips)) s sm))
  = value_of (select s el sm sta rel gcd ips).
Proof.
  rewrite (get_min_energy_structure_uuid_blind _
             (relaxed rel 0 (candidates s el sta gcd ips)))
    by apply relaxed_related.
  unfold select, get_min_energy_structure. by destruct (filter _ _).
Qed.

(** The relax jobs of a fan-out all run, and leave their documents in the
    store. *)
Lemma run_relax_jobs rel tag cands (v : Uuid) (ii : nat) st rest :
  ∃ st',
    (∀ f, run_jobs (length cands + f)
                   (imap (relax_job rel tag v ii) cands ++ rest) st
          = run_jobs f rest st')
    ∧ supply st' = supply st
    ∧ (∀ (i : nat) c, cands !! i = Some c →
         store st' !! (v + i)%nat = Some (VTaskDoc (maker_calc rel c)))
    ∧ (∀ w : Uuid, (w < v)%nat → store st' !! w = store st !! w)
    ∧ selector_outputs (history st') = selector_outputs (history st)
    ∧ length (history st') = (length (history st) + length cands)%nat.
Proof.
  revert v ii st. induction cands as [| c cs IH]; intros v ii st.
  { exists st. split_and!; simpl; try done; lia. }
  set (j0 := relax_job rel tag v ii 0 c).
  set (r0 := {| output := VTaskDoc (maker_calc rel c); replace := None |}).
  set (st1 := {| store := <[ job_uuid j0 := VTaskDoc (maker_calc rel c) ]>
                            (store st);
                 supply := supply st;
                 history := history st ++ [(j0, r0)] |}).
  assert (exec_job j0 st = Some (r0, st1)) as Hexec by reflexivity.
  assert (imap (relax_job rel tag v ii ∘ S) cs
          = imap (relax_job rel tag (S v) (S ii)) cs) as Hshift.
  { apply imap_ext. intros i x _. unfold relax_job; simpl.
    by rewrite !Nat.add_succ_r. }
  destruct (IH (S v) (S ii) st1)
    as (st' & Hrun' & Hsupply & Hdocs & Hbelow & Hsel & Hlen).
  exists st'. split_and!.
  - intros f. rewrite imap_cons. cbn [app length Nat.add]. fold j0.
    rewrite (run_jobs_S _ _ _ _ _ _ Hexec). cbn [prepare_replace replace r0 app].
    rewrite Hshift. apply Hrun'.
  - by rewrite Hsupply.
  - intros [| i] c' Hc'; simpl in Hc'.
    + injection Hc' as <-. rewrite Hbelow by lia. unfold st1; simpl.
      rewrite Nat.add_0_r. apply lookup_insert_eq.
    + rewrite Nat.add_succ_r. by apply (Hdocs i).
  - intros w Hw. rewrite Hbelow by lia. unfold st1; simpl.
    apply lookup_insert_ne. lia.
  - rewrite Hsel. unfold st1; cbn [history]. rewrite selector_outputs_app.
    simpl. apply app_nil_r.
  - rewrite Hlen. unfold st1; cbn [history]. rewrite length_app. simpl. lia.
Qed.

Lemma resolve_fan_out (σ : gmap Uuid Value) rel tag (v : Uuid) cands :
  (∀ (i : nat) c, cands !! i = Some c →
     σ !! (v + i)%nat = Some (VTaskDoc (maker_calc rel c))) →
  resolve_value σ (VSummaryRefs
                     (summary_of_job <$> imap (relax_job rel tag v 0) cands))
  = Some (VSummaries (relaxed rel v cands)).
Proof.
  intros Hσ. simpl. apply fmap_Some. eexists; split; [| done].
  apply mapM_Some. unfold relaxed. apply Forall2_fmap_l.
  apply Forall2_same_length_lookup. split; [by rewrite !length_imap |].
  intros i j x Hj Hx. rewrite list_lookup_imap in Hj.
  rewrite list_lookup_imap in Hx.
  destruct (cands !! i) as [c |] eqn:Hc; simplify_eq/=.
  apply (resolve_summary_of_job σ (relax_job rel tag v 0 i c)). simpl.
  by apply Hσ.
Qed.

(** The first four jobs of a step's flow: the static calculation, the
    charge density, the candidates and the fan-out, which puts its relax
    jobs and a [store_inputs] job in its place. *)
Lemma run_level_head s el sm sta rel gcd ips n k (u : Uuid) st rest :
  let cands := candidates s el sta gcd ips in
  let jobs := imap (relax_job rel (pretty k) (supply st) 0) cands in
  ∃ st4 fan_out j4 j5,
    step_jobs s el sm sta rel gcd ips n k u !! 3%nat = Some fan_out
    ∧ step_jobs s el sm sta rel gcd ips n k u !! 4%nat = Some j4
    ∧ step_jobs s el sm sta rel gcd ips n k u !! 5%nat = Some j5
    ∧ (∀ F,
         run_jobs (4 + F) (step_jobs s el sm sta rel gcd ips n k u ++ rest) st
         = run_jobs F
             (jobs ++ {| job_uuid := job_uuid fan_out;
                         job_name := "store_inputs";
                         job_call := call_store_inputs
                                       (VSummaryRefs (summary_of_job <$> jobs)) |}
                   :: j4 :: j5 :: rest) st4)
    ∧ supply st4 = (supply st + length cands)%nat
    ∧ selector_outputs (history st4) = selector_outputs (history st)
    ∧ length (history st4) = (length (history st) + 4)%nat.
Proof.
  intros cands jobs. unfold step_jobs. cbn [app Nat.add].
  do 4 eexists. split_and!; [reflexivity | reflexivity | reflexivity | | | |].
  - intros F.
    match goal with |- context [run_jobs _ (?j :: _) _] => set (j0 := j) end.
    assert (run_call (store st) (job_call j0)
            = Some (ret (Returned (VTaskDoc (maker_calc sta s))))) as Hrun0
      by reflexivity.
    rewrite (run_jobs_S _ _ _ _ _ _ (exec_job_eq _ _ _ Hrun0)).
    cbn [ret fst snd from_job_returns prepare_replace replace output app].
    match goal with |- context [run_jobs _ (?j :: _) ?x] =>
      set (j1 := j); set (st1 := x) end.
    assert (run_call (store st1) (job_call j1)
            = Some (ret (Returned (VChg (gcd (td_dir_name (maker_calc sta s)))))))
      as Hrun1.
    { cbn [job_call j1 run_call resolve_arg resolve ref_uuid ref_attributes
           getattr output_of app foldl store st1 job_uuid j0].
      rewrite lookup_insert_eq. reflexivity. }
    rewrite (run_jobs_S _ _ _ _ _ _ (exec_job_eq _ _ _ Hrun1)).
    cbn [ret fst snd from_job_returns prepare_replace replace output app].
    match goal with |- context [run_jobs _ (?j :: _) ?x] =>
      set (j2 := j); set (st2 := x) end.
    assert (run_call (store st2) (job_call j2)
            = Some (ret (Returned (VStructures cands)))) as Hrun2.
    { cbn [job_call j2 run_call resolve_arg resolve ref_uuid ref_attributes
           getattr output_of app foldl store st2 job_uuid j1].
      rewrite lookup_insert_eq. reflexivity. }
    rewrite (run_jobs_S _ _ _ _ _ _ (exec_job_eq _ _ _ Hrun2)).
    cbn [ret fst snd from_job_returns prepare_replace replace output app].
    match goal with |- context [run_jobs _ (?j :: _) ?x] =>
      set (j3 := j); set (st3 := x) end.
    assert (run_call (store st3) (job_call j3)
            = Some (get_relaxed_job_summaries cands rel (pretty k))) as Hrun3.
    { cbn [job_call j3 run_call resolve_arg resolve ref_uuid ref_attributes
           getattr output_of app foldl store st3 job_uuid j2].
      rewrite lookup_insert_eq. reflexivity. }
    rewrite (run_jobs_S _ _ _ _ _ _ (exec_job_eq _ _ _ Hrun3)).
    unfold get_relaxed_job_summaries, bind, ret. rewrite relax_loop_closed.
    cbv zeta.
    cbn [fst snd from_job_returns prepare_replace replace output app
         flow_jobs flow_output supply st3 st2 st1].
    rewrite <- app_assoc. cbn [app].
    subst j0 j1 j2 j3 st1 st2 st3. reflexivity.
  - reflexivity.
  - cbn [history]. rewrite !selector_outputs_app. cbn. by rewrite !app_nil_r.
  - cbn [history]. rewrite !length_app. simpl. lia.
Qed.

(** The last two jobs before the next step: [store_inputs] resolves the
    summaries, the selector picks. *)
Lemma run_level_tail s el sm sta rel gcd ips n k (u v : Uuid) st rest j4 j5 :
  let cands := candidates s el sta gcd ips in
  let jobs := imap (relax_job rel (pretty k) v 0) cands in
  let pick := select s el sm sta rel gcd ips in
  step_jobs s el sm sta rel gcd ips n k u !! 4%nat = Some j4 →
  (∀ (i : nat) c, cands !! i = Some c →
     store st !! (v + i)%nat = Some (VTaskDoc (maker_calc rel c))) →
  ∃ st',
    (∀ f, run_jobs (2 + f)
            ({| job_uuid := (3 + u)%nat; job_name := "store_inputs";
                job_call := call_store_inputs
                              (VSummaryRefs (summary_of_job <$> jobs)) |}
             :: j4 :: j5 :: rest) st
          = run_jobs f (j5 :: rest) st')
    ∧ store st' !! (4 + u)%nat = Some (value_of pick)
    ∧ supply st' = supply st
    ∧ selector_outputs (history st')
      = selector_outputs (history st) ++ [value_of pick]
    ∧ length (history st') = (length (history st) + 2)%nat.
Proof.
  intros cands jobs pick [= <-] Hdocs.
  pose proof (resolve_fan_out (store st) rel (pretty k) v cands Hdocs) as Hres.
  fold jobs in Hres.
  eexists. split_and!.
  - intros f. cbn [Nat.add].
    match goal with |- context [run_jobs _ (?j :: _) _] => set (j3 := j) end.
    assert (run_call (store st) (job_call j3)
            = Some (ret (Returned (VSummaries (relaxed rel v cands))))) as Hrun3.
    { cbn [job_call j3 run_call]. rewrite Hres. reflexivity. }
    rewrite (run_jobs_S _ _ _ _ _ _ (exec_job_eq _ _ _ Hrun3)).
    cbn [ret fst snd from_job_returns prepare_replace replace output app].
    match goal with |- context [run_jobs _ (?j :: _) ?x] =>
      set (j4 := j); set (st4 := x) end.
    assert (run_call (store st4) (job_call j4)
            = Some (ret (get_min_energy_structure (relaxed rel v cands) s sm)))
      as Hrun4.
    { cbn [job_call j4 run_call resolve_arg resolve ref_uuid ref_attributes
           getattr output_of app foldl store st4 job_uuid j3 Nat.add].
      rewrite lookup_insert_eq. reflexivity. }
    rewrite (run_jobs_S _ _ _ _ _ _ (exec_job_eq _ _ _ Hrun4)).
    assert (prepare_replace j4
              (from_job_returns
                 (ret (get_min_energy_structure (relaxed rel v cands) s sm)
                      (supply st4)).1) = []) as ->.
    { unfold ret; cbn [fst]. unfold get_min_energy_structure.
      by destruct (filter _ _). }
    cbn [app ret fst snd]. subst j3 j4 st4. reflexivity.
  - cbn [store]. rewrite lookup_insert_eq.
    exact (f_equal Some (value_of_select s el sm sta rel gcd ips v)).
  - reflexivity.
  - cbn [history]. rewrite !selector_outputs_app. cbn. rewrite app_nil_r.
    exact (f_equal (λ x, selector_outputs (history st) ++ [x])
                   (value_of_select s el sm sta rel gcd ips v)).
  - cbn [history]. rewrite !length_app. simpl. lia.
Qed.

(** The jobs of one step, run in a row, leave the pick of the round at
    the selector's uuid and the next step at the head of the queue. *)
Lemma run_level s el sm sta rel gcd ips n k (u : Uuid) st rest :
  let cands := candidates s el sta gcd ips in
  let pick := select s el sm sta rel gcd ips in
  ∃ st' next,
    step_jobs s el sm sta rel gcd ips n k u !! 5%nat = Some next
    ∧ (∀ f, run_jobs (4 + (length cands + (2 + f)))
                     (step_jobs s el sm sta rel gcd ips n k u ++ rest) st
            = run_jobs f (next :: rest) st')
    ∧ store st' !! (4 + u)%nat = Some (value_of pick)
    ∧ supply st' = (supply st + length cands)%nat
    ∧ selector_outputs (history st')
      = selector_outputs (history st) ++ [value_of pick]
    ∧ length (history st') = (length (history st) + 6 + length cands)%nat.
Proof.
  intros cands pick.
  destruct (run_level_head s el sm sta rel gcd ips n k u st rest)
    as (st4 & fan_out & j4 & j5 & H3 & H4 & H5 & Hrun4 & Hsup4 & Hsel4 & Hlen4).
  fold cands in Hrun4, Hsup4.
  injection H3 as <-. cbn [job_uuid] in Hrun4.
  match type of (Hrun4 0%nat) with
  | _ = run_jobs _ (_ ++ ?q) _ =>
    destruct (run_relax_jobs rel (pretty k) cands (supply st) 0 st4 q)
      as (st5 & Hrun5 & Hsup5 & Hdocs & _ & Hsel5 & Hlen5)
  end.
  destruct (run_level_tail s el sm sta rel gcd ips n k u (supply st) st5 rest
              j4 j5 H4 Hdocs)
    as (st7 & Hrun7 & Hstore & Hsup7 & Hsel7 & Hlen7).
  exists st7, j5. split_and!.
  - done.
  - intros f. rewrite Hrun4, Hrun5. apply Hrun7.
  - done.
  - by rewrite Hsup7, Hsup5, Hsup4.
  - by rewrite Hsel7, Hsel5, Hsel4.
  - rewrite Hlen7, Hlen5, Hlen4. lia.
Qed.

(** ** The chain of rounds *)

(** A step that runs: it stops ... *)
Lemma run_step_stop j st rest arg el sm sta rel gcd ips n k o :
  job_call j = call_get_stable_inserted_structure arg el sm sta rel gcd ips n k →
  resolve_arg as_optional_structure (store st) arg = Some o →
  o = None ∨ budget_exhausted n = true →
  ∃ st1,
    (∀ F, run_jobs (S F) (j :: rest) st = run_jobs F rest st1)
    ∧ selector_outputs (history st1) = selector_outputs (history st)
    ∧ length (history st1) = S (length (history st))
    ∧ supply st1 = supply st.
Proof.
  intros Hj Harg Hstop.
  assert (run_call (store st) (job_call j)
          = Some (get_stable_inserted_structure o el sm sta rel gcd ips n k))
    as Hrun.
  { rewrite Hj. cbn [run_call]. by rewrite Harg. }
  assert (get_stable_inserted_structure o el sm sta rel gcd ips n k (supply st)
          = (Returned VNone, supply st)) as Hret.
  { apply guard_returns_None.
    destruct Hstop as [-> | Hn]; [by left | right].
    by apply budget_exhausted_true. }
  eexists. split_and!.
  - intros F. rewrite (run_jobs_S _ _ _ _ _ _ (exec_job_eq _ _ _ Hrun)).
    rewrite Hret. reflexivity.
  - cbn [history]. rewrite selector_outputs_app. cbn. rewrite Hj.
    apply app_nil_r.
  - cbn [history]. rewrite length_app. simpl. lia.
  - reflexivity.
Qed.

(** ... or it opens a level. *)
Lemma run_step_open j st rest arg el sm sta rel gcd ips n k s :
  job_call j = call_get_stable_inserted_structure arg el sm sta rel gcd ips n k →
  resolve_arg as_optional_structure (store st) arg = Some (Some s) →
  budget_exhausted n = false →
  ∃ st1,
    (∀ F, run_jobs (S F) (j :: rest) st
          = run_jobs F (step_jobs s el sm sta rel gcd ips n k (supply st)
                        ++ rest) st1)
    ∧ selector_outputs (history st1) = selector_outputs (history st)
    ∧ length (history st1) = S (length (history st))
    ∧ supply st1 = (6 + supply st)%nat.
Proof.
  intros Hj Harg Hn.
  assert (run_call (store st) (job_call j)
          = Some (get_stable_inserted_structure (Some s) el sm sta rel gcd ips
                    n k)) as Hrun.
  { rewrite Hj. cbn [run_call]. by rewrite Harg. }
  eexists. split_and!.
  - intros F. rewrite (run_jobs_S _ _ _ _ _ _ (exec_job_eq _ _ _ Hrun)).
    rewrite step_expands by done. reflexivity.
  - cbn [history]. rewrite selector_outputs_app. cbn. rewrite Hj.
    apply app_nil_r.
  - cbn [history]. rewrite length_app. simpl. lia.
  - reflexivity.
Qed.

Lemma as_optional_structure_value_of o :
  as_optional_structure (value_of o) = Some o.
Proof. by destruct o. Qed.

(** The step at the end of a level reads the pick of the level. *)
Lemma next_step_reads_pick s el sm sta rel gcd ips n k (u : Uuid) next st pick :
  step_jobs s el sm sta rel gcd ips n k u !! 5%nat = Some next →
  store st !! (4 + u)%nat = Some (value_of pick) →
  ∃ arg,
    job_call next
    = call_get_stable_inserted_structure arg el sm sta rel gcd ips
        ((λ n, n - 1) <$> n) (k + 1)
    ∧ resolve_arg as_optional_structure (store st) arg = Some pick.
Proof.
  intros [= <-] Hst. eexists. split; [reflexivity |].
  cbn [resolve_arg resolve ref_uuid ref_attributes output_of foldl].
  change (S (S (S (S u)))) with (4 + u)%nat. rewrite Hst. simpl.
  apply as_optional_structure_value_of.
Qed.

(** When the chain of picks ends before the gas does, the run of the step
    ends, and its selectors have resolved to the picks of the chain. *)
Lemma run_rounds (gas : nat) el sm sta rel gcd ips :
  ∀ j st rest arg n k o,
    job_call j
    = call_get_stable_inserted_structure arg el sm sta rel gcd ips n k →
    resolve_arg as_optional_structure (store st) arg = Some o →
    (length (rounds gas el sm sta rel gcd ips o n) < gas)%nat →
    ∃ fuel st',
      (∀ f, run_jobs (fuel + f) (j :: rest) st = run_jobs f rest st')
      ∧ selector_outputs (history st')
        = selector_outputs (history st)
          ++ (value_of <$> rounds gas el sm sta rel gcd ips o n).
Proof.
  induction gas as [| gas IH]; intros j st rest arg n k o Hj Harg Hlen;
    [simpl in Hlen; lia |].
  destruct (decide (o = None ∨ budget_exhausted n = true)) as [Hstop | Hopen].
  - destruct (run_step_stop j st rest arg el sm sta rel gcd ips n k o Hj Harg
                Hstop) as (st1 & Hrun & Hsel & _ & _).
    exists 1%nat, st1. split; [done |]. rewrite Hsel.
    destruct Hstop as [-> | Hn]; [by rewrite app_nil_r |].
    destruct o; simpl; rewrite ?Hn; by rewrite app_nil_r.
  - destruct o as [s |]; [| by destruct Hopen; left].
    destruct (budget_exhausted n) eqn:Hn; [by destruct Hopen; right |].
    clear Hopen.
    cbn [rounds] in Hlen |- *. rewrite Hn in Hlen |- *. cbn [length] in Hlen.
    destruct (run_step_open j st rest arg el sm sta rel gcd ips n k s Hj Harg Hn)
      as (st1 & Hrun1 & Hsel1 & _ & _).
    destruct (run_level s el sm sta rel gcd ips n k (supply st) st1 rest)
      as (st2 & next & Hnext & Hrun2 & Hstore & _ & Hsel2 & _).
    destruct (next_step_reads_pick _ _ _ _ _ _ _ _ _ _ _ _ _ Hnext Hstore)
      as (arg' & Hj' & Harg').
    destruct (IH next st2 rest arg' _ _ _ Hj' Harg' ltac:(lia))
      as (fuel & st' & Hrun3 & Hsel3).
    exists (S (4 + (length (candidates s el sta gcd ips) + (2 + fuel)))), st'.
    split.
    + intros f. cbn [Nat.add]. rewrite Hrun1.
      replace (S (S (S (S (length (candidates s el sta gcd ips)
                             + (S (S fuel)) + f)))))
        with (4 + (length (candidates s el sta gcd ips) + (2 + (fuel + f))))%nat
        by lia.
      rewrite Hrun2. apply Hrun3.
    + rewrite Hsel3, Hsel2, Hsel1, fmap_cons. by rewrite <- app_assoc.
Qed.

(** One round, end to end.  When a step with a structure and a budget
    left runs, no job of its level fails: after the step and the [6 + L] jobs
    of the level ([L] relax jobs, one per capped candidate) the next step
    stands first in the queue and reads, as its structure, the pick of the
    round: the structure of least energy among the relaxed candidates that
    fit, or [None]. *)
Theorem one_round_selects j st rest arg el sm sta rel gcd ips n k s :
  job_call j = call_get_stable_inserted_structure arg el sm sta rel gcd ips n k →
  resolve_arg as_optional_structure (store st) arg = Some (Some s) →
  budget_exhausted n = false →
  let cands := candidates s el sta gcd ips in
  let pick := select s el sm sta rel gcd ips in
  ∃ st' next arg',
    (∀ f, run_jobs (7 + length cands + f) (j :: rest) st
          = run_jobs f (next :: rest) st')
    ∧ job_call next
      = call_get_stable_inserted_structure arg' el sm sta rel gcd ips
          ((λ n, n - 1) <$> n) (k + 1)
    ∧ resolve_arg as_optional_structure (store st') arg' = Some pick
    ∧ selector_outputs (history st')
      = selector_outputs (history st) ++ [value_of pick]
    ∧ length (history st') = (length (history st) + 7 + length cands)%nat
    ∧ supply st' = (supply st + 6 + length cands)%nat.
Proof.
  intros Hj Harg Hn cands pick.
  destruct (run_step_open j st rest arg el sm sta rel gcd ips n k s Hj Harg Hn)
    as (st1 & Hrun1 & Hsel1 & Hlen1 & Hsup1).
  destruct (run_level s el sm sta rel gcd ips n k (supply st) st1 rest)
    as (st2 & next & Hnext & Hrun2 & Hstore & Hsup2 & Hsel2 & Hlen2).
  destruct (next_step_reads_pick _ _ _ _ _ _ _ _ _ _ _ _ _ Hnext Hstore)
    as (arg' & Hj' & Harg').
  exists st2, next, arg'. split_and!; try done.
  - intros f.
    replace (7 + length cands + f)%nat
      with (S (4 + (length cands + (2 + f)))) by lia.
    rewrite Hrun1. apply Hrun2.
  - by rewrite Hsel2, Hsel1.
  - rewrite Hlen2, Hlen1. fold cands. lia.
  - rewrite Hsup2, Hsup1. fold cands. lia.
Qed.

(** No candidate, no further round.  When nothing is proposed for the
    structure (the generator yields nothing, or the cap is 0), the fan-out
    makes no relax job, the selector returns [None] and the next step stops:
    the step and its level are eight jobs, none of which fails, and the
    queue goes on with what came after the step. *)
Theorem no_candidate_ends_the_chain j st rest arg el sm sta rel gcd ips n k s :
  job_call j = call_get_stable_inserted_structure arg el sm sta rel gcd ips n k →
  resolve_arg as_optional_structure (store st) arg = Some (Some s) →
  budget_exhausted n = false →
  inserted_structures (gcd (td_dir_name (maker_calc sta s))) el None = []
  ∨ ips = 0 →
  candidates s el sta gcd ips = []
  ∧ select s el sm sta rel gcd ips = None
  ∧ ∃ st',
      (∀ f, run_jobs (8 + f) (j :: rest) st = run_jobs f rest st')
      ∧ selector_outputs (history st') = selector_outputs (history st) ++ [VNone]
      ∧ length (history st') = (length (history st) + 8)%nat
      ∧ supply st' = (supply st + 6)%nat.
Proof.
  intros Hj Harg Hn Hnone.
  assert (candidates s el sta gcd ips = []) as Hc.
  { unfold candidates. destruct Hnone as [-> | ->].
    - unfold slice_to. case_bool_decide; apply take_nil.
    - rewrite slice_to_nonneg by lia. by rewrite Z.min_r by lia. }
  assert (select s el sm sta rel gcd ips = None) as Hpick.
  { unfold select. by rewrite Hc. }
  split_and!; [done | done |].
  destruct (run_step_open j st rest arg el sm sta rel gcd ips n k s Hj Harg Hn)
    as (st1 & Hrun1 & Hsel1 & Hlen1 & Hsup1).
  destruct (run_level s el sm sta rel gcd ips n k (supply st) st1 rest)
    as (st2 & next & Hnext & Hrun2 & Hstore & Hsup2 & Hsel2 & Hlen2).
  rewrite Hc in Hrun2, Hsup2, Hlen2. rewrite Hpick in Hstore, Hsel2.
  destruct (next_step_reads_pick _ _ _ _ _ _ _ _ _ _ _ _ _ Hnext Hstore)
    as (arg' & Hj' & Harg').
  destruct (run_step_stop next st2 rest arg' _ _ _ _ _ _ _ _ _ Hj' Harg'
              ltac:(by left)) as (st3 & Hrun3 & Hsel3 & Hlen3 & Hsup3).
  exists st3. split_and!.
  - intros f. change (8 + f)%nat with (S (4 + (0 + (2 + S f)))).
    rewrite Hrun1. cbn [length] in Hrun2. rewrite Hrun2. apply Hrun3.
  - by rewrite Hsel3, Hsel2, Hsel1.
  - rewrite Hlen3, Hlen2, Hlen1. simpl. lia.
  - rewrite Hsup3, Hsup2, Hsup1. simpl. lia.
Qed.

Lemma rounds_length_bounded gas el sm sta rel gcd ips o (n : Z) :
  (length (rounds gas el sm sta rel gcd ips o (Some n)) ≤ Z.to_nat n)%nat.
Proof.
  revert o n. induction gas as [| gas IH]; intros o n; [simpl; lia |].
  destruct o as [s |]; [| simpl; lia]. cbn [rounds].
  destruct (budget_exhausted (Some n)) eqn:Hn; [simpl; lia |].
  simpl in Hn. apply bool_decide_eq_false in Hn. cbn [length fmap option_fmap option_map].
  specialize (IH (select s el sm sta rel gcd ips) (n - 1)). lia.
Qed.

(** The whole run follows the chain of picks.  Whenever the chain ends
    within [gas] rounds, the flow built by [make] runs to its end, without a
    failed job, and its selectors resolve, in order, to the picks of the
    chain that starts at the relaxed input structure: each pick is the
    structure of least energy among the relaxed fitting candidates of the
    pick before.  With a budget [N] the chain ends within [N] rounds, so the
    run always finishes. *)
Theorem run_follows_the_chain self structure el ips (seed : Uuid) :
  let first_maker := default (relax_maker self) (bulk_relax_maker self) in
  let sm := _add_ignored_species (structure_matcher self) el in
  let chain gas n_steps :=
    rounds gas el sm (static_maker self) (relax_maker self)
           (get_charge_density self) ips
           (Some (td_structure (maker_calc first_maker structure))) n_steps in
  (∀ gas n_steps,
     (length (chain gas n_steps) < gas)%nat →
     ∃ fuel,
       (run_flow fuel (make self structure el n_steps ips) seed).1 = Finished
       ∧ selector_outputs
           (history (run_flow fuel (make self structure el n_steps ips) seed).2)
         = value_of <$> chain gas n_steps)
  ∧ (∀ N : Z,
       (length (chain (S (Z.to_nat N)) (Some N)) ≤ Z.to_nat N)%nat
       ∧ ∃ fuel,
           (run_flow fuel (make self structure el (Some N) ips) seed).1
           = Finished
           ∧ selector_outputs
               (history (run_flow fuel (make self structure el (Some N) ips)
                           seed).2)
             = value_of <$> chain (S (Z.to_nat N)) (Some N)).
Proof.
  intros first_maker sm chain.
  assert (∀ gas n_steps,
     (length (chain gas n_steps) < gas)%nat →
     ∃ fuel,
       (run_flow fuel (make self structure el n_steps ips) seed).1 = Finished
       ∧ selector_outputs
           (history (run_flow fuel (make self structure el n_steps ips) seed).2)
         = value_of <$> chain gas n_steps) as Hgeneral.
  { intros gas n_steps Hlen. unfold run_flow.
    assert (make self structure el n_steps ips seed
            = ({| flow_jobs :=
                    [ {| job_uuid := seed; job_name := maker_name first_maker;
                         job_call := call_make first_maker structure |};
                      {| job_uuid := S seed;
                         job_name := "get_stable_inserted_structure";
                         job_call :=
                           call_get_stable_inserted_structure
                             (Ref (getattr (output_of seed) "structure")) el sm
                             (static_maker self) (relax_maker self)
                             (get_charge_density self) ips n_steps 0 |} ];
                  flow_output := VNone |}, (2 + seed)%nat)) as ->.
    { unfold make, bind, ret. subst first_maker.
      by destruct (bulk_relax_maker self). }
    cbn [fst snd flow_jobs].
    set (relaxed_doc := maker_calc first_maker structure).
    set (r1 := {| output := VTaskDoc relaxed_doc; replace := None |}).
    match goal with |- context [run_jobs _ (?j :: ?q) ?x] =>
      set (j1 := j); set (st0 := x);
      set (st1 := {| store := <[ seed := VTaskDoc relaxed_doc ]> ∅;
                     supply := (2 + seed)%nat; history := [(j1, r1)] |})
    end.
    assert (exec_job j1 st0 = Some (r1, st1)) as Hexec by reflexivity.
    match goal with |- context [run_jobs _ (j1 :: [?j]) _] => set (j2 := j) end.
    destruct (run_rounds gas el sm (static_maker self) (relax_maker self)
                (get_charge_density self) ips j2 st1 []
                (Ref (getattr (output_of seed) "structure")) n_steps 0
                (Some (td_structure relaxed_doc)))
      as (fuel & st' & Hrun & Hsel).
    - reflexivity.
    - cbn [resolve_arg resolve ref_uuid ref_attributes getattr output_of app
           foldl store st1].
      rewrite lookup_insert_eq. reflexivity.
    - exact Hlen.
    - exists (S (fuel + 0)). rewrite (run_jobs_S _ _ _ _ _ _ Hexec).
      cbn [prepare_replace replace r1 app]. rewrite Hrun. by cbn. }
  split; [exact Hgeneral |].
  intros N.
  pose proof (rounds_length_bounded (S (Z.to_nat N)) el sm (static_maker self)
                (relax_maker self) (get_charge_density self) ips
                (Some (td_structure (maker_calc first_maker structure))) N)
    as Hlen.
  split; [exact Hlen |]. apply Hgeneral. unfold chain. lia.
Qed.

(** ** A run without budget *)

Lemma run_jobs_more_fuel f d queue st :
  (run_jobs f queue st).1 ≠ OutOfFuel →
  run_jobs (f + d) queue st = run_jobs f queue st.
Proof.
  revert queue st. induction f as [| f IH]; intros [| j rest] st Hf; simpl in *.
  - by destruct d.
  - done.
  - done.
  - destruct (exec_job j st) as [[resp st'] |]; [by apply IH | done].
Qed.

Lemma run_forever el sm sta rel gcd ips :
  (∀ s, select s el sm sta rel gcd ips ≠ None) →
  ∀ fuel j st rest arg k s,
    job_call j
    = call_get_stable_inserted_structure arg el sm sta rel gcd ips None k →
    resolve_arg as_optional_structure (store st) arg = Some (Some s) →
    (run_jobs fuel (j :: rest) st).1 = OutOfFuel.
Proof.
  intros Hpick fuel. induction fuel as [fuel IH] using lt_wf_ind.
  intros j st rest arg k s Hj Harg. destruct fuel as [| F]; [done |].
  destruct (run_step_open j st rest arg el sm sta rel gcd ips None k s Hj Harg
              eq_refl) as (st1 & Hrun1 & _).
  rewrite Hrun1.
  destruct (run_level s el sm sta rel gcd ips None k (supply st) st1 rest)
    as (st2 & next & Hnext & Hrun2 & Hstore & _).
  set (L := length (candidates s el sta gcd ips)) in *.
  destruct (decide (6 + L ≤ F)%nat) as [Hle | Hgt].
  - replace F with (4 + (L + (2 + (F - 6 - L))))%nat by lia. rewrite Hrun2.
    destruct (select s el sm sta rel gcd ips) as [s' |] eqn:Hs';
      [| by destruct (Hpick s)].
    destruct (next_step_reads_pick _ _ _ _ _ _ _ _ _ _ _ _ _ Hnext Hstore)
      as (arg' & Hj' & Harg').
    apply (IH (F - 6 - L)%nat ltac:(lia) next st2 rest arg' (k + 1) s');
      [exact Hj' | exact Harg'].
  - match goal with |- (run_jobs F ?q st1).1 = _ =>
      destruct (run_jobs F q st1).1 eqn:Hstatus; [| done |];
      pose proof (run_jobs_more_fuel F (6 + L - F) q st1) as Hmore
    end.
    + rewrite Hstatus in Hmore. specialize (Hmore ltac:(done)).
      replace (F + (6 + L - F))%nat with (4 + (L + (2 + 0)))%nat in Hmore by lia.
      rewrite Hrun2 in Hmore. rewrite <- Hmore in Hstatus. done.
    + rewrite Hstatus in Hmore. specialize (Hmore ltac:(done)).
      replace (F + (6 + L - F))%nat with (4 + (L + (2 + 0)))%nat in Hmore by lia.
      rewrite Hrun2 in Hmore. rewrite <- Hmore in Hstatus. done.
Qed.

(** Without a budget nothing but the selector ends the recursion: when
    every structure has a candidate that fits (so that every round has a
    pick), the run of the flow built by [make] with [n_steps = None] never
    ends, whatever fuel it is given. *)
Theorem unbounded_run_never_ends self structure el ips (seed : Uuid) :
  (∀ s, select s el (_add_ignored_species (structure_matcher self) el)
               (static_maker self) (relax_maker self) (get_charge_density self)
               ips ≠ None) →
  ∀ fuel,
    (run_flow fuel (make self structure el None ips) seed).1 = OutOfFuel.
Proof.
  intros Hpick fuel. unfold run_flow.
  set (first_maker := default (relax_maker self) (bulk_relax_maker self)).
  set (sm := _add_ignored_species (structure_matcher self) el) in *.
  assert (make self structure el None ips seed
          = ({| flow_jobs :=
                  [ {| job_uuid := seed; job_name := maker_name first_maker;
                       job_call := call_make first_maker structure |};
                    {| job_uuid := S seed;
                       job_name := "get_stable_inserted_structure";
                       job_call :=
                         call_get_stable_inserted_structure
                           (Ref (getattr (output_of seed) "structure")) el sm
                           (static_maker self) (relax_maker self)
                           (get_charge_density self) ips None 0 |} ];
                flow_output := VNone |}, (2 + seed)%nat)) as ->.
  { unfold make, bind, ret. subst first_maker.
    by destruct (bulk_relax_maker self). }
  cbn [fst snd flow_jobs]. destruct fuel as [| F]; [done |].
  set (relaxed_doc := maker_calc first_maker structure).
  set (r1 := {| output := VTaskDoc relaxed_doc; replace := None |}).
  match goal with |- context [run_jobs _ (?j :: ?q) ?x] =>
    set (j1 := j); set (st0 := x);
    set (st1 := {| store := <[ seed := VTaskDoc relaxed_doc ]> ∅;
                   supply := (2 + seed)%nat; history := [(j1, r1)] |})
  end.
  assert (exec_job j1 st0 = Some (r1, st1)) as Hexec by reflexivity.
  rewrite (run_jobs_S _ _ _ _ _ _ Hexec). cbn [prepare_replace replace r1 app].
  eapply (run_forever el sm _ _ _ ips Hpick F _ st1 []).
  - reflexivity.
  - cbn [resolve_arg resolve ref_uuid ref_attributes getattr output_of app
         foldl store st1].
    rewrite lookup_insert_eq. reflexivity.
Qed.

End MoreProperties.

(** * The further properties at work on the small instance *)

Lemma Z_ltb_order : @StrictWeakOrder toy_types Z.ltb.
Proof.
  split.
  - intros a. apply Z.ltb_irrefl.
  - intros a b c Hab%Z.ltb_lt Hbc%Z.ltb_lt. apply Z.ltb_lt. lia.
  - intros a b c Hab%Z.ltb_lt. destruct (Z.ltb_spec a c); [by left | right].
    apply Z.ltb_lt. lia.
Qed.

(** With the accepting matcher every structure has a pick. *)
Lemma accept_all_always_picks (s : string) :
  select (collaborators := Open.accept_all) s "H"
    (_add_ignored_species (collaborators := Open.accept_all) (matcher []) "H")
    static relax (λ dir, dir) 4 ≠ None.
Proof.
  unfold select, candidates, relaxed, inserted_structures. simpl.
  unfold sites. case_decide; simpl; done.
Qed.

Lemma get_inserted_structures_bounded_witness :
  0 ≤ 2
  ∧ ∃ kept,
      get_inserted_structures "" "H" 2 None = Returned (VStructures kept)
      ∧ (length kept ≤ 2)%nat.
Proof.
  split; [lia |].
  destruct (get_inserted_structures_bounded (types := toy_types)
              (collaborators := toy_collaborators) "" "H" 2 None)
    as (kept & Hret & Hcap & _).
  exists kept. split; [exact Hret |]. apply Hcap. lia.
Defined.

Lemma unique_minimum_is_selected_witness :
  let summaries := imap doc_summary (doc <$> ["H0"; "H1"; "H2"]) in
  let m := doc_summary 2%nat (doc "H2") in
  m ∈ summaries
  ∧ fit (matcher ["H0"; "H2"]) "" (structure m) = true
  ∧ get_min_energy_structure (reverse summaries) "" (matcher ["H0"; "H2"])
    = Responded {| output := VStructure "H2"; replace := None |}.
Proof.
  intros summaries m.
  assert (m ∈ summaries) as Hm.
  { right. right. left. }
  split_and!; [exact Hm | reflexivity |].
  apply (unique_minimum_is_selected (types := toy_types)
           (collaborators := toy_collaborators) summaries ""
           (matcher ["H0"; "H2"]) m Z_ltb_order Hm eq_refl).
  - intros s Hs _.
    apply elem_of_cons in Hs as [-> | Hs]; [by right |].
    apply elem_of_cons in Hs as [-> | Hs]; [by right |].
    apply elem_of_cons in Hs as [-> | Hs]; [by left |].
    by apply elem_of_nil in Hs.
  - apply reverse_Permutation.
Defined.

Lemma relax_names_identify_step_and_candidate_witness :
  ∃ jobs,
    (flow_jobs <$> replace (from_job_returns
       (get_relaxed_job_summaries ["H0"; "H1"; "H2"] relax (pretty 0) 8%nat).1))
    = Some jobs
    ∧ NoDup (job_name <$> jobs).
Proof.
  eexists. split; [reflexivity |].
  destruct (relax_names_identify_step_and_candidate (types := toy_types)
              relax ["H0"; "H1"; "H2"] ["H0"] 0 1 8%nat 20%nat _ _
              eq_refl eq_refl) as [_ Hnames].
  exact Hnames.
Defined.

Lemma one_round_selects_witness :
  let j := {| job_uuid := 1%nat; job_name := "get_stable_inserted_structure";
              job_call :=
                call_get_stable_inserted_structure (Val (Some ""))
                  "H" (matcher ["H0"; "H2"]) static relax (λ dir, dir) 4
                  (Some 2) 0 |} in
  let st := {| store := ∅; supply := 2%nat; history := [] |} in
  ∃ st' next,
    (∀ f, run_jobs (10 + f) [j] st = run_jobs f [next] st')
    ∧ selector_outputs (history st') = [VStructure "H2"]
    ∧ supply st' = 11%nat.
Proof.
  intros j st.
  destruct (one_round_selects (types := toy_types)
              (collaborators := toy_collaborators) j st [] (Val (Some ""))
              "H" (matcher ["H0"; "H2"]) static relax (λ dir, dir) 4
              (Some 2) 0 "" eq_refl eq_refl eq_refl)
    as (st' & next & arg' & Hrun & _ & _ & Hsel & _ & Hsup).
  exists st', next. split_and!; [exact Hrun | exact Hsel | exact Hsup].
Defined.

Lemma no_candidate_ends_the_chain_witness :
  let j := {| job_uuid := 1%nat; job_name := "get_stable_inserted_structure";
              job_call :=
                call_get_stable_inserted_structure (Val (Some ""))
                  "H" (matcher ["H0"; "H2"]) static relax (λ dir, dir) 0
                  (Some 2) 0 |} in
  let st := {| store := ∅; supply := 2%nat; history := [] |} in
  ∃ st',
    (∀ f, run_jobs (8 + f) [j] st = run_jobs f [] st')
    ∧ selector_outputs (history st') = [VNone].
Proof.
  intros j st.
  destruct (no_candidate_ends_the_chain (types := toy_types)
              (collaborators := toy_collaborators) j st [] (Val (Some ""))
              "H" (matcher ["H0"; "H2"]) static relax (λ dir, dir) 0
              (Some 2) 0 "" eq_refl eq_refl eq_refl (or_intror eq_refl))
    as (_ & _ & st' & Hrun & Hsel & _).
  exists st'. split; [exact Hrun | exact Hsel].
Defined.

Lemma run_follows_the_chain_witness :
  ∃ fuel,
    (run_flow fuel (make (maker ["H0"; "H2"]) "" "H" None 4) 0%nat).1
    = Finished
    ∧ selector_outputs
        (history (run_flow fuel (make (maker ["H0"; "H2"]) "" "H" None 4)
                    0%nat).2)
      = [VStructure "H2"; VNone].
Proof.
  destruct (run_follows_the_chain (types := toy_types)
              (collaborators := toy_collaborators) (maker ["H0"; "H2"]) ""
              "H" 4 0%nat) as [Hchain _].
  apply (Hchain 3%nat None). vm_compute. lia.
Defined.

Lemma unbounded_run_never_ends_witness :
  (∀ s : string,
     select (collaborators := Open.accept_all) s "H"
       (_add_ignored_species (collaborators := Open.accept_all) (matcher [])
          "H")
       static relax (λ dir, dir) 4 ≠ None)
  ∧ ∀ fuel,
      (run_flow (collaborators := Open.accept_all) fuel
         (make (collaborators := Open.accept_all) (maker []) "" "H" None 4)
         0%nat).1 = OutOfFuel.
Proof.
  split; [exact accept_all_always_picks |].
  apply (unbounded_run_never_ends (types := toy_types)
           (collaborators := Open.accept_all) (maker []) "" "H" 4 0%nat
           accept_all_always_picks).
Defined.

(** * Properties of the defect jobs (vasp/jobs/defect.py) *)

Section DefectProperties.
Context {types : Types} {defects : DefectCollaborators}.

(** ** Dictionaries and indexing *)

Lemma dict_get_set {K V} `{EqDecision K} (k k' : K) (v : V) d :
  dict_get k (dict_set k' v d)
  = if decide (k = k') then Some v else dict_get k d.
Proof.
  induction d as [| [k0 v0] d IH]; simpl.
  - done.
  - destruct (decide (k' = k0)) as [-> | Hne]; simpl.
    + by destruct (decide (k = k0)).
    + destruct (decide (k = k0)) as [-> | Hne'].
      * case_decide; congruence.
      * apply IH.
Qed.

Lemma dict_get_None {K V} `{EqDecision K} (k : K) (d : list (K * V)) :
  k ∉ d.*1 → dict_get k d = None.
Proof.
  induction d as [| [k0 v0] d IH]; simpl; [done |].
  intros [Hne Hnot]%not_elem_of_cons. by rewrite decide_False by done; auto.
Qed.

Lemma dict_set_keys {K V} `{EqDecision K} (k : K) (v : V) d :
  (dict_set k v d).*1 = if decide (k ∈ d.*1) then d.*1 else d.*1 ++ [k].
Proof.
  induction d as [| [k0 v0] d IH]; cbn [dict_set fmap list_fmap fst].
  - rewrite decide_False; [done |]. apply not_elem_of_nil.
  - destruct (decide (k = k0)) as [-> | Hne]; cbn [fmap list_fmap fst].
    + rewrite decide_True; [done |]. left.
    + rewrite IH. destruct (decide (k ∈ d.*1)) as [Hin | Hnot].
      * rewrite decide_True; [done |]. by right.
      * rewrite decide_False; [done |]. by intros [? | ?]%elem_of_cons.
Qed.

Lemma dict_get_update {K V} `{EqDecision K} (k : K) (d other : list (K * V)) :
  NoDup other.*1 →
  dict_get k (dict_update d other)
  = match dict_get k other with Some v => Some v | None => dict_get k d end.
Proof.
  unfold dict_update. revert d.
  induction other as [| [k0 v0] other IH]; intros d Hnd; simpl; [done |].
  apply NoDup_cons in Hnd as [Hk0 Hnd]. rewrite IH by done.
  rewrite dict_get_set. destruct (decide (k = k0)) as [-> | Hne].
  - by rewrite dict_get_None.
  - done.
Qed.

Lemma py_index_spec {A} (l : list A) (i : Z) :
  py_index l i
  = if bool_decide (- Z.of_nat (length l) ≤ i < Z.of_nat (length l))
    then l !! Z.to_nat (i `mod` Z.of_nat (length l))
    else None.
Proof.
  unfold py_index. repeat case_bool_decide; try lia.
  - by rewrite Z.mod_small by lia.
  - apply lookup_ge_None. lia.
  - f_equal. f_equal.
    rewrite <- (Z.mod_small (Z.of_nat (length l) + i) (Z.of_nat (length l)))
      by lia.
    rewrite Z.add_comm.
    rewrite <- (Z.mul_1_l (Z.of_nat (length l))) at 1.
    by rewrite Z.mod_add by lia.
  - done.
Qed.

(** ** The charge states of a defect *)

Lemma charge_loop_cons defect relax_maker defect_index add_info sc_def_struct
    qq charge_states all_chg_outputs jobs (u : Uuid) :
  charge_loop defect relax_maker defect_index add_info sc_def_struct
    (qq :: charge_states) all_chg_outputs jobs u
  = let charged_relax :=
      calc_set_info (charge_info defect qq add_info)
        (calc_append_name (charge_suffix defect defect_index qq)
           (make_calc relax_maker (set_charge sc_def_struct qq) None u).1) in
    charge_loop defect relax_maker defect_index add_info sc_def_struct
      charge_states (dict_set qq (charge_output charged_relax) all_chg_outputs)
      (jobs ++ [charged_relax]) (S u).
Proof. reflexivity. Qed.

(** What the loop adds to its two accumulators. *)
Lemma charge_loop_spec defect relax_maker defect_index add_info sc_def_struct
    charge_states :
  ∀ all_chg_outputs jobs (u : Uuid),
    let r := charge_loop defect relax_maker defect_index add_info sc_def_struct
               charge_states all_chg_outputs jobs u in
    ∃ new,
      r.1.2 = jobs ++ new
      ∧ r.2 = (u + length charge_states)%nat
      ∧ length new = length charge_states
      ∧ (∀ (i : nat) qq, charge_states !! i = Some qq →
           ∃ j, new !! i = Some j
                ∧ cj_uuid j = (u + i)%nat
                ∧ cj_name j = maker_name relax_maker
                              +:+ charge_suffix defect defect_index qq
                ∧ cj_maker j = relax_maker
                ∧ cj_structure j = set_charge sc_def_struct qq
                ∧ cj_prev_vasp_dir j = None
                ∧ cj_info j = Some (charge_info defect qq add_info))
      ∧ (∀ qq, qq ∉ charge_states →
           dict_get qq r.1.1 = dict_get qq all_chg_outputs)
      ∧ (∀ (i : nat) qq, charge_states !! i = Some qq →
           (∀ i' : nat, (i < i')%nat → charge_states !! i' ≠ Some qq) →
           ∃ j, new !! i = Some j ∧ dict_get qq r.1.1 = Some (charge_output j))
      ∧ (NoDup charge_states →
         (∀ qq, qq ∈ charge_states → qq ∉ all_chg_outputs.*1) →
         r.1.1.*1 = all_chg_outputs.*1 ++ charge_states).
Proof.
  induction charge_states as [| q qs IH]; intros outs jobs u r.
  - exists []. subst r. simpl. split_and!; try done.
    + by rewrite app_nil_r.
    + intros _ _. by rewrite app_nil_r.
  - subst r. rewrite charge_loop_cons. cbv zeta.
    set (J := calc_set_info _ _).
    destruct (IH (dict_set q (charge_output J) outs) (jobs ++ [J]) (S u))
      as (new & Hjobs & Hsup & Hlen & Hfields & Hmiss & Hlast & Hkeys).
    exists (J :: new). split_and!.
    + by rewrite Hjobs, <- app_assoc.
    + rewrite Hsup. simpl. lia.
    + simpl. lia.
    + intros [| i] qq Hq; simpl in Hq.
      * injection Hq as <-. exists J. split_and!; try done; simpl; lia.
      * destruct (Hfields i qq Hq) as (j & Hj & Hu & ? & ? & ? & ? & ?).
        exists j. split_and!; try done. lia.
    + intros qq [Hne Hnot]%not_elem_of_cons.
      rewrite Hmiss by done. by rewrite dict_get_set, decide_False by done.
    + intros [| i] qq Hq Hlater; simpl in Hq.
      * injection Hq as <-. exists J. split; [done |].
        rewrite Hmiss.
        { by rewrite dict_get_set, decide_True by done. }
        intros [i' Hi']%list_elem_of_lookup.
        by apply (Hlater (S i')); [lia |].
      * destruct (Hlast i qq Hq) as (j & Hj & Hget).
        { intros i' Hlt. apply (Hlater (S i')). lia. }
        by exists j.
    + intros [Hq Hnd]%NoDup_cons Hfresh.
      assert (q ∉ outs.*1) as Hq' by (apply Hfresh; left).
      rewrite Hkeys; [| done |].
      * rewrite dict_set_keys, decide_False by done.
        by rewrite <- app_assoc.
      * intros qq Hqq. rewrite dict_set_keys, decide_False by done.
        rewrite elem_of_app, list_elem_of_singleton.
        intros [Hin | ->]; [| done].
        apply (Hfresh qq); [by right | done].
Qed.

(** One relaxation per listed charge state, in the order of the list: the
    [i]-th job relaxes the supercell of the defect with the [i]-th charge,
    bears the maker's name followed by the suffix of that charge, carries
    the provenance [info] of that charge, and draws the [i]-th identifier;
    nothing else is created. *)
Theorem run_all_charge_states_one_job_per_charge_state
    defect relax_maker sc_mat defect_index add_info (u : Uuid) :
  let r := run_all_charge_states defect relax_maker sc_mat defect_index
             add_info u in
  let charge_states := get_charge_states defect in
  r.2 = (u + length charge_states)%nat
  ∧ length r.1.2 = length charge_states
  ∧ ∀ (i : nat) qq, charge_states !! i = Some qq →
      ∃ j, r.1.2 !! i = Some j
           ∧ cj_uuid j = (u + i)%nat
           ∧ cj_name j = maker_name relax_maker
                         +:+ charge_suffix defect defect_index qq
           ∧ cj_maker j = relax_maker
           ∧ cj_structure j
             = set_charge (get_supercell_structure defect sc_mat) qq
           ∧ cj_prev_vasp_dir j = None
           ∧ cj_info j = Some (charge_info defect qq add_info).
Proof.
  intros r charge_states. subst r. unfold run_all_charge_states.
  destruct (charge_loop_spec defect relax_maker defect_index add_info
              (get_supercell_structure defect sc_mat) charge_states [] [] u)
    as (new & Hjobs & Hsup & Hlen & Hfields & _).
  cbv zeta in Hjobs, Hsup. fold charge_states.
  rewrite Hjobs, Hsup. simpl. split_and!; [done | done |].
  intros i qq Hq. apply (Hfields i qq Hq).
Qed.

(** The dictionary that [spawn_defect_calcs] outputs, against the jobs it
    is replaced by.  A charge that is not listed has no entry; a listed
    charge maps to the references into the job of its last occurrence in the
    list, so a charge listed twice gets two jobs and one entry; and when no
    charge is listed twice the keys are the charges, in the order of the
    list. *)
Theorem spawn_defect_calcs_reports_last_job defect sc_mat relax_maker
    (u : Uuid) :
  let reply := (spawn_defect_calcs defect sc_mat relax_maker u).1 in
  let charge_states := get_charge_states defect in
  reply_flow_output reply = None
  ∧ length (reply_replace reply) = length charge_states
  ∧ (∀ qq, qq ∉ charge_states → dict_get qq (reply_output reply) = None)
  ∧ (∀ (i : nat) qq, charge_states !! i = Some qq →
       (∀ i' : nat, (i < i')%nat → charge_states !! i' ≠ Some qq) →
       ∃ j, reply_replace reply !! i = Some j
            ∧ cj_uuid j = (u + i)%nat
            ∧ dict_get qq (reply_output reply) = Some (charge_output j))
  ∧ (NoDup charge_states → (reply_output reply).*1 = charge_states).
Proof.
  intros reply charge_states. subst reply charge_states.
  unfold spawn_defect_calcs, run_all_charge_states, bind, ret.
  pose proof (charge_loop_spec defect relax_maker "" None
                (get_supercell_structure defect (Some sc_mat))
                (get_charge_states defect) [] [] u) as Hspec.
  cbv zeta in Hspec.
  destruct (charge_loop defect relax_maker "" None _ _ [] [] u)
    as [[outs jobs] u'].
  destruct Hspec
    as (new & Hjobs & Hsup & Hlen & Hfields & Hmiss & Hlast & Hkeys).
  simpl in Hjobs, Hmiss, Hlast, Hkeys. subst jobs. simpl.
  split_and!; [done | done | | |].
  - intros qq Hqq. by rewrite Hmiss.
  - intros i qq Hq Hlater. destruct (Hlast i qq Hq Hlater) as (j & Hj & Hget).
    destruct (Hfields i qq Hq) as (j' & Hj' & Hu & _).
    exists j. split_and!; [done | congruence | done].
  - intros Hnd. apply Hkeys; [done |]. intros qq _. apply not_elem_of_nil.
Qed.

Lemma charge_suffix_inj defect defect_index (qq qq' : Z) :
  charge_suffix defect defect_index qq = charge_suffix defect defect_index qq' →
  qq = qq'.
Proof.
  unfold charge_suffix. case_decide; intros Heq.
  - do 3 apply (inj (String.app _)) in Heq. by apply (inj pretty).
  - do 5 apply (inj (String.app _)) in Heq. by apply (inj pretty).
Qed.

(** When the defect lists no charge twice, the jobs of its charge states
    bear pairwise distinct names. *)
Theorem charge_state_names_distinct
    defect relax_maker sc_mat defect_index add_info (u : Uuid) :
  NoDup (get_charge_states defect) →
  NoDup (cj_name <$> (run_all_charge_states defect relax_maker sc_mat
                        defect_index add_info u).1.2).
Proof.
  intros Hnd. unfold run_all_charge_states.
  destruct (charge_loop_spec defect relax_maker defect_index add_info
              (get_supercell_structure defect sc_mat)
              (get_charge_states defect) [] [] u)
    as (new & Hjobs & _ & Hlen & Hfields & _).
  cbv zeta in Hjobs. rewrite Hjobs. simpl.
  apply NoDup_alt. intros i i' x Hi Hi'.
  rewrite list_lookup_fmap in Hi, Hi'.
  destruct (new !! i) as [j |] eqn:Hj; [| done].
  destruct (new !! i') as [j' |] eqn:Hj'; [| done].
  simpl in Hi, Hi'.
  destruct (lookup_lt_is_Some_2 (get_charge_states defect) i) as [qq Hq].
  { rewrite <- Hlen. by apply lookup_lt_Some in Hj. }
  destruct (lookup_lt_is_Some_2 (get_charge_states defect) i') as [qq' Hq'].
  { rewrite <- Hlen. by apply lookup_lt_Some in Hj'. }
  destruct (Hfields i qq Hq) as (j0 & Hj0 & _ & Hname & _).
  destruct (Hfields i' qq' Hq') as (j0' & Hj0' & _ & Hname' & _).
  assert (j0 = j) as -> by congruence.
  assert (j0' = j') as -> by congruence.
  assert (qq = qq') as <-.
  { apply (charge_suffix_inj defect defect_index).
    apply (inj (String.app (maker_name relax_maker))). congruence. }
  by apply (NoDup_lookup _ i i' qq Hnd).
Qed.

(** What [add_info] holds takes precedence in the provenance [info]: a key
    of [add_info] is read with the value [add_info] gives it, also the keys
    ["defect"] and ["charge_state"]; any other key keeps the value of the
    default [info]. *)
Theorem add_info_takes_precedence defect qq add_info :
  NoDup add_info.*1 →
  ∀ key,
    dict_get key (charge_info defect qq (Some add_info))
    = match dict_get key add_info with
      | Some v => Some v
      | None => dict_get key (charge_info defect qq None)
      end.
Proof.
  intros Hnd key. unfold charge_info. by rewrite dict_get_update.
Qed.

(** ** The energy curve *)

Lemma curve_loop_cons relaxed_structure distorted_structure s_distortions
    static_maker prev_vasp_dir add_name add_info (i : nat) d_struct
    distorted_structures jobs outputs (u : Uuid) :
  curve_loop relaxed_structure distorted_structure s_distortions static_maker
    prev_vasp_dir add_name add_info i (d_struct :: distorted_structures)
    jobs outputs u
  = match s_distortions !! i with
    | None => (None, S u)
    | Some distortion =>
      let static_job :=
        calc_append_name (curve_suffix add_name i)
          (calc_set_info
             (curve_info relaxed_structure distorted_structure distortion
                add_info)
             (make_calc static_maker d_struct prev_vasp_dir u).1) in
      curve_loop relaxed_structure distorted_structure s_distortions
        static_maker prev_vasp_dir add_name add_info (S i)
        distorted_structures (jobs ++ [static_job])
        (outputs ++ [curve_output static_job]) (S u)
    end.
Proof.
  simpl. unfold bind, make_calc. simpl. by destruct (s_distortions !! i).
Qed.

(** The loop fails when it runs past the distortions. *)
Lemma curve_loop_fails relaxed_structure distorted_structure s_distortions
    static_maker prev_vasp_dir add_name add_info distorted_structures :
  ∀ (i : nat) jobs outputs (u : Uuid),
    (i ≤ length s_distortions)%nat →
    (length s_distortions < i + length distorted_structures)%nat →
    (curve_loop relaxed_structure distorted_structure s_distortions
       static_maker prev_vasp_dir add_name add_info i distorted_structures
       jobs outputs u).1 = None.
Proof.
  induction distorted_structures as [| d ds IH];
    intros i jobs outputs u Hi Hlen.
  - simpl in Hlen. lia.
  - rewrite curve_loop_cons.
    destruct (s_distortions !! i) as [dist |] eqn:Hdist; [| done].
    apply lookup_lt_Some in Hdist.
    cbv zeta. apply IH; simpl in Hlen; lia.
Qed.

(** What the loop adds to its two accumulators when the distortions
    suffice. *)
Lemma curve_loop_spec relaxed_structure distorted_structure s_distortions
    static_maker prev_vasp_dir add_name add_info distorted_structures :
  ∀ (i : nat) jobs outputs (u : Uuid),
    (i + length distorted_structures ≤ length s_distortions)%nat →
    ∃ new_jobs new_outputs,
      curve_loop relaxed_structure distorted_structure s_distortions
        static_maker prev_vasp_dir add_name add_info i distorted_structures
        jobs outputs u
      = (Some (jobs ++ new_jobs, outputs ++ new_outputs),
         (u + length distorted_structures)%nat)
      ∧ length new_jobs = length distorted_structures
      ∧ length new_outputs = length distorted_structures
      ∧ ∀ (k : nat) d, distorted_structures !! k = Some d →
          ∃ j distortion,
            new_jobs !! k = Some j
            ∧ s_distortions !! (i + k)%nat = Some distortion
            ∧ cj_uuid j = (u + k)%nat
            ∧ cj_name j = maker_name static_maker
                          +:+ curve_suffix add_name (i + k)
            ∧ cj_maker j = static_maker
            ∧ cj_structure j = d
            ∧ cj_prev_vasp_dir j = prev_vasp_dir
            ∧ cj_info j = Some (curve_info relaxed_structure
                                  distorted_structure distortion add_info)
            ∧ new_outputs !! k = Some (curve_output j).
Proof.
  induction distorted_structures as [| d ds IH]; intros i jobs outputs u Hlen.
  - exists [], []. simpl. unfold ret. rewrite !app_nil_r.
    split_and!; try done. f_equal. lia.
  - rewrite curve_loop_cons. simpl in Hlen.
    destruct (lookup_lt_is_Some_2 s_distortions i) as [dist Hdist]; [lia |].
    rewrite Hdist. cbv zeta.
    set (J := calc_append_name _ _).
    destruct (IH (S i) (jobs ++ [J]) (outputs ++ [curve_output J]) (S u))
      as (nj & no & Hrun & Hlj & Hlo & Hfields); [lia |].
    exists (J :: nj), (curve_output J :: no). split_and!.
    + rewrite Hrun, <- !app_assoc. simpl. do 2 f_equal. lia.
    + simpl. lia.
    + simpl. lia.
    + intros [| k] d' Hk; simpl in Hk.
      * injection Hk as <-. exists J, dist.
        rewrite Nat.add_0_r. split_and!; try done; simpl; lia.
      * destruct (Hfields k d' Hk)
          as (j & distortion & Hj & Hd & Hu & Hname & ? & ? & ? & ? & ?).
        exists j, distortion.
        replace (i + S k)%nat with (S i + k)%nat by lia.
        split_and!; try done. lia.
Qed.

(** When the interpolation returns no more structures than there are
    distortions, [spawn_energy_curve_calcs] answers with one static job per
    interpolated structure, in order: the [i]-th job computes the [i]-th
    structure from [prev_vasp_dir], bears the maker's name followed by the
    suffix of [i], records the [i]-th sorted distortion in its [info], and
    the [i]-th output holds the references into it and its uuid; the flow
    that replaces the job declares the same outputs. *)
Theorem spawn_energy_curve_calcs_one_job_per_image
    relaxed_structure distorted_structure distortions static_maker
    prev_vasp_dir add_name add_info (u : Uuid) :
  let s_distortions := sorted distortions in
  let distorted_structures :=
    interpolate relaxed_structure distorted_structure s_distortions in
  (length distorted_structures ≤ length s_distortions)%nat →
  ∃ reply,
    (spawn_energy_curve_calcs relaxed_structure distorted_structure
       distortions static_maker prev_vasp_dir add_name add_info u).1
    = Some reply
    ∧ reply_flow_output reply = Some (reply_output reply)
    ∧ length (reply_replace reply) = length distorted_structures
    ∧ length (reply_output reply) = length distorted_structures
    ∧ ∀ (i : nat) d, distorted_structures !! i = Some d →
        ∃ j distortion,
          reply_replace reply !! i = Some j
          ∧ s_distortions !! i = Some distortion
          ∧ cj_name j = maker_name static_maker +:+ curve_suffix add_name i
          ∧ cj_maker j = static_maker
          ∧ cj_structure j = d
          ∧ cj_prev_vasp_dir j = prev_vasp_dir
          ∧ cj_info j = Some (curve_info relaxed_structure distorted_structure
                                distortion add_info)
          ∧ reply_output reply !! i = Some (curve_output j).
Proof.
  intros s_distortions structures Hlen.
  unfold spawn_energy_curve_calcs, bind, ret. cbn [fst snd make_calc].
  fold s_distortions. fold structures.
  destruct (curve_loop_spec relaxed_structure distorted_structure
              s_distortions static_maker prev_vasp_dir add_name add_info
              structures 0 [] [] (S u) ltac:(simpl; lia))
    as (nj & no & Hrun & Hlj & Hlo & Hfields).
  rewrite Hrun. simpl. eexists. split; [reflexivity |]. simpl.
  split_and!; [done | done | done |].
  intros i d Hd.
  destruct (Hfields i d Hd)
    as (j & distortion & Hj & Hdist & _ & Hname & Hmaker & Hstruct & Hprev
        & Hinfo & Hout).
  exists j, distortion. by split_and!.
Qed.

(** The static job that [spawn_energy_curve_calcs] makes first, for the
    relaxed structure, is in none of its results: it draws an identifier,
    [u], and every job of the replacement has a later one and computes one of
    the interpolated structures. *)
Theorem reference_static_job_is_dropped
    relaxed_structure distorted_structure distortions static_maker
    prev_vasp_dir add_name add_info (u : Uuid) reply :
  (spawn_energy_curve_calcs relaxed_structure distorted_structure distortions
     static_maker prev_vasp_dir add_name add_info u).1 = Some reply →
  cj_uuid (make_calc static_maker relaxed_structure None u).1 = u
  ∧ (spawn_energy_curve_calcs relaxed_structure distorted_structure
       distortions static_maker prev_vasp_dir add_name add_info u).2
    = S (u + length (reply_replace reply))
  ∧ ∀ j, j ∈ reply_replace reply →
      (u < cj_uuid j)%nat
      ∧ cj_structure j
        ∈ interpolate relaxed_structure distorted_structure
            (sorted distortions).
Proof.
  unfold spawn_energy_curve_calcs, bind, ret. cbn [fst snd make_calc cj_uuid].
  set (s_distortions := sorted distortions).
  set (structures := interpolate _ _ _).
  destruct (decide (length structures ≤ length s_distortions)%nat)
    as [Hle | Hgt].
  - destruct (curve_loop_spec relaxed_structure distorted_structure
                s_distortions static_maker prev_vasp_dir add_name add_info
                structures 0 [] [] (S u) ltac:(simpl; lia))
      as (nj & no & Hrun & Hlj & Hlo & Hfields).
    rewrite Hrun. simpl. intros [= <-]. simpl.
    split_and!; [done | lia |].
    intros j [k Hk]%list_elem_of_lookup.
    destruct (lookup_lt_is_Some_2 structures k) as [d Hd].
    { rewrite <- Hlj. by apply lookup_lt_Some in Hk. }
    destruct (Hfields k d Hd) as (j' & _ & Hj' & _ & Hu & _ & _ & Hs & _).
    assert (j' = j) as -> by congruence.
    split; [lia |]. rewrite Hs. by apply list_elem_of_lookup_2 in Hd.
  - pose proof (curve_loop_fails relaxed_structure distorted_structure
                  s_distortions static_maker prev_vasp_dir add_name add_info
                  structures 0 [] [] (S u) ltac:(lia) ltac:(simpl; lia))
      as Hfail.
    destruct (curve_loop _ _ _ _ _ _ _ _ _ _ _ _) as [[[jobs outputs] |] u'];
      done.
Qed.

(** ** The configuration-coordinate documents *)

(** [get_ccd_documents] reaches the call of [from_task_outputs] exactly when
    [undistorted_index] is an index of both lists, counted from the front
    or, when negative, from the end; so never with an empty list.  The
    relaxed identifiers it hands over are then the identifiers of the inputs
    at that position, and the eight lists are read off the inputs one for
    one. *)
Theorem get_ccd_documents_index inputs1 inputs2 (undistorted_index : Z) :
  let n1 := Z.of_nat (length inputs1) in
  let n2 := Z.of_nat (length inputs2) in
  (is_Some (get_ccd_documents inputs1 inputs2 undistorted_index)
   ↔ (- n1 ≤ undistorted_index < n1) ∧ (- n2 ≤ undistorted_index < n2))
  ∧ ∀ args,
      get_ccd_documents inputs1 inputs2 undistorted_index = Some args →
      (∃ a b,
         inputs1 !! Z.to_nat (undistorted_index `mod` n1) = Some a
         ∧ inputs2 !! Z.to_nat (undistorted_index `mod` n2) = Some b
         ∧ relaxed_uuid1 args = ccd_uuid a
         ∧ relaxed_uuid2 args = ccd_uuid b)
      ∧ (∀ (i : nat) a, inputs1 !! i = Some a →
           structures1 args !! i = Some (ccd_structure a)
           ∧ energies1 args !! i = Some (ccd_energy a)
           ∧ static_dirs1 args !! i = Some (ccd_dir_name a)
           ∧ static_uuids1 args !! i = Some (ccd_uuid a))
      ∧ (∀ (i : nat) b, inputs2 !! i = Some b →
           structures2 args !! i = Some (ccd_structure b)
           ∧ energies2 args !! i = Some (ccd_energy b)
           ∧ static_dirs2 args !! i = Some (ccd_dir_name b)
           ∧ static_uuids2 args !! i = Some (ccd_uuid b)).
Proof.
  intros n1 n2. unfold get_ccd_documents. cbv zeta.
  rewrite !py_index_spec, !length_fmap. fold n1 n2.
  split.
  - do 2 case_bool_decide; simpl.
    + rewrite !list_lookup_fmap.
      destruct (lookup_lt_is_Some_2 inputs1
                  (Z.to_nat (undistorted_index `mod` n1))) as [a ->].
      { pose proof (Z.mod_pos_bound undistorted_index n1). lia. }
      destruct (lookup_lt_is_Some_2 inputs2
                  (Z.to_nat (undistorted_index `mod` n2))) as [b ->].
      { pose proof (Z.mod_pos_bound undistorted_index n2). lia. }
      simpl. split; [done | by eexists].
    + split; [by intros [? ?] | lia].
    + split; [| lia]. destruct (_ !! _); simpl; by intros [? ?].
    + split; [by intros [? ?] | lia].
  - intros args Hargs.
    do 2 case_bool_decide; simpl in Hargs; try done.
    + rewrite !list_lookup_fmap in Hargs.
      destruct (inputs1 !! Z.to_nat (undistorted_index `mod` n1))
        as [a |] eqn:Ha; [| done].
      destruct (inputs2 !! Z.to_nat (undistorted_index `mod` n2))
        as [b |] eqn:Hb; [| done].
      simpl in Hargs. injection Hargs as <-. simpl. split_and!.
      * by exists a, b.
      * intros i a' Ha'. rewrite !list_lookup_fmap, Ha'. done.
      * intros i b' Hb'. rewrite !list_lookup_fmap, Hb'. done.
    + destruct (_ !! _); done.
Qed.

End DefectProperties.

(** * The defect jobs on the small instance *)

Import ToyDefect.

(** The defect ["v_O"] has the charges -1, 0 and 1. *)
Example toy_charge_jobs :
  cj_name <$> (run_all_charge_states "v_O" relax None "" None 5%nat).1.2
  = ["relax v_O q=-1"; "relax v_O q=0"; "relax v_O q=1"].
Proof. reflexivity. Qed.

Lemma run_all_charge_states_one_job_per_charge_state_witness :
  get_charge_states "v_O" !! 2%nat = Some 1
  ∧ ∃ j,
      (run_all_charge_states "v_O" relax (Some 2) "3" None 5%nat).1.2 !! 2%nat
      = Some j
      ∧ cj_uuid j = 7%nat
      ∧ cj_name j = "relax v_O-3 q=1"
      ∧ cj_structure j = "v_O in 2 q=1".
Proof.
  split; [reflexivity |].
  destruct (run_all_charge_states_one_job_per_charge_state
              (types := toy_types) (defects := toy_defects)
              "v_O" relax (Some 2) "3" None 5%nat) as (_ & _ & Hjobs).
  destruct (Hjobs 2%nat 1 eq_refl) as (j & Hj & Hu & Hname & _ & Hs & _).
  exists j. split_and!; [exact Hj | exact Hu | exact Hname | exact Hs].
Defined.

(** The defect ["Mg_Ga"] lists the charges 0, 1, 0: three jobs, and the
    entry of 0 refers to the third. *)
Lemma spawn_defect_calcs_reports_last_job_witness :
  get_charge_states "Mg_Ga" !! 2%nat = Some 0
  ∧ (∀ i' : nat, (2 < i')%nat → get_charge_states "Mg_Ga" !! i' ≠ Some 0)
  ∧ length (reply_replace (spawn_defect_calcs "Mg_Ga" 2 relax 5%nat).1)
    = 3%nat
  ∧ ∃ j,
      reply_replace (spawn_defect_calcs "Mg_Ga" 2 relax 5%nat).1 !! 2%nat
      = Some j
      ∧ cj_uuid j = 7%nat
      ∧ dict_get 0 (reply_output (spawn_defect_calcs "Mg_Ga" 2 relax 5%nat).1)
        = Some (charge_output j).
Proof.
  assert (∀ i' : nat, (2 < i')%nat → get_charge_states "Mg_Ga" !! i' ≠ Some 0)
    as Hlast.
  { intros [| [| [| i']]] Hlt; [lia | lia | lia | done]. }
  destruct (spawn_defect_calcs_reports_last_job (types := toy_types)
              (defects := toy_defects) "Mg_Ga" 2 relax 5%nat)
    as (_ & Hlen & _ & Hentry & _).
  split_and!; [reflexivity | exact Hlast | exact Hlen |].
  exact (Hentry 2%nat 0 eq_refl Hlast).
Defined.

Lemma charge_state_names_distinct_witness :
  NoDup (get_charge_states "v_O")
  ∧ NoDup (cj_name <$> (run_all_charge_states "v_O" relax None "" None
                          5%nat).1.2).
Proof.
  assert (NoDup (get_charge_states "v_O")) as Hnd.
  { apply (bool_decide_unpack _). vm_compute. exact I. }
  split; [exact Hnd |].
  apply (charge_state_names_distinct (types := toy_types)
           (defects := toy_defects) "v_O" relax None "" None 5%nat Hnd).
Defined.

Lemma add_info_takes_precedence_witness :
  let add_info := [("charge_state", info_extra "unknown");
                   ("note", info_extra "test")] in
  NoDup add_info.*1
  ∧ dict_get "charge_state" (charge_info "v_O" 1 (Some add_info))
    = Some (info_extra "unknown")
  ∧ dict_get "defect" (charge_info "v_O" 1 (Some add_info))
    = Some (info_defect "v_O").
Proof.
  intros add_info.
  assert (NoDup add_info.*1) as Hnd.
  { apply (bool_decide_unpack _). vm_compute. exact I. }
  split_and!; [exact Hnd | |].
  - apply (add_info_takes_precedence (types := toy_types)
             (defects := toy_defects) "v_O" 1 add_info Hnd "charge_state").
  - apply (add_info_takes_precedence (types := toy_types)
             (defects := toy_defects) "v_O" 1 add_info Hnd "defect").
Defined.

(** Three distortions, given out of order. *)
Example toy_curve_jobs :
  (λ reply, cj_name <$> reply_replace reply)
  <$> (spawn_energy_curve_calcs "gs" "es" [1; -1; 0] static (Some "prev")
         "q1" None 5%nat).1
  = Some ["static q1 0"; "static q1 1"; "static q1 2"].
Proof. reflexivity. Qed.

(** The outputs carry the uuids of the three static jobs; the uuid 5 went to
    the job made first, which is in no list. *)
Example toy_curve_uuids :
  (λ reply : Reply (list CurveOutput),
     (cu_uuid <$> reply_output reply, cj_uuid <$> reply_replace reply))
  <$> (spawn_energy_curve_calcs "gs" "es" [1; -1; 0] static (Some "prev")
         "q1" None 5%nat).1
  = Some ([6; 7; 8]%nat, [6; 7; 8]%nat).
Proof. reflexivity. Qed.

Lemma spawn_energy_curve_calcs_one_job_per_image_witness :
  (length (interpolate "gs" "es" (sorted [1; -1; 0]%Z))
   ≤ length (sorted [1; -1; 0]%Z))%nat
  ∧ ∃ reply j,
      (spawn_energy_curve_calcs "gs" "es" [1; -1; 0] static (Some "prev")
         "q1" None 5%nat).1 = Some reply
      ∧ reply_replace reply !! 0%nat = Some j
      ∧ cj_name j = "static q1 0"
      ∧ cj_structure j = "gs>es@-1"
      ∧ cj_info j = Some (curve_info "gs" "es" (-1) None).
Proof.
  assert (length (interpolate "gs" "es" (sorted [1; -1; 0]%Z))
          ≤ length (sorted [1; -1; 0]%Z))%nat as Hle.
  { simpl. lia. }
  split; [exact Hle |].
  destruct (spawn_energy_curve_calcs_one_job_per_image (types := toy_types)
              (defects := toy_defects) "gs" "es" [1; -1; 0] static
              (Some "prev") "q1" None 5%nat Hle)
    as (reply & Hreply & _ & _ & _ & Hjobs).
  destruct (Hjobs 0%nat "gs>es@-1" eq_refl)
    as (j & distortion & Hj & Hd & Hname & _ & Hs & _ & Hinfo & _).
  injection Hd as <-.
  exists reply, j.
  split_and!; [exact Hreply | exact Hj | exact Hname | exact Hs | exact Hinfo].
Defined.

Lemma reference_static_job_is_dropped_witness :
  ∃ reply,
    (spawn_energy_curve_calcs "gs" "es" [1; -1; 0] static (Some "prev")
       "q1" None 5%nat).1 = Some reply
    ∧ (spawn_energy_curve_calcs "gs" "es" [1; -1; 0] static (Some "prev")
         "q1" None 5%nat).2 = 9%nat
    ∧ ∀ j, j ∈ reply_replace reply → (5 < cj_uuid j)%nat.
Proof.
  eexists. split; [reflexivity |].
  destruct (reference_static_job_is_dropped (types := toy_types)
              (defects := toy_defects) "gs" "es" [1; -1; 0] static
              (Some "prev") "q1" None 5%nat _ eq_refl)
    as (_ & Hsupply & Hjobs).
  split; [exact Hsupply |].
  intros j Hj. exact (proj1 (Hjobs j Hj)).
Defined.

Lemma get_ccd_documents_index_witness :
  let inputs :=
    [ {| ccd_structure := "a"; ccd_energy := -3; ccd_dir_name := "d0";
         ccd_uuid := "u0" |};
      {| ccd_structure := "b"; ccd_energy := -5; ccd_dir_name := "d1";
         ccd_uuid := "u1" |} ] in
  (∃ args, get_ccd_documents inputs inputs (-1) = Some args
           ∧ relaxed_uuid1 args = "u1")
  ∧ get_ccd_documents inputs inputs 2 = None
  ∧ get_ccd_documents [] inputs 0 = None.
Proof.
  intros inputs.
  destruct (get_ccd_documents_index (types := toy_types) inputs inputs (-1))
    as [Hsome Hargs].
  destruct (get_ccd_documents_index (types := toy_types) inputs inputs 2)
    as [Hout _].
  destruct (get_ccd_documents_index (types := toy_types) [] inputs 0)
    as [Hempty _].
  split_and!.
  - destruct (proj2 Hsome) as [args Heq]; [simpl; lia |].
    exists args. split; [exact Heq |].
    destruct (Hargs args Heq) as ((a & b & Ha & _ & Hu & _) & _).
    injection Ha as <-. exact Hu.
  - destruct (get_ccd_documents inputs inputs 2) as [args |] eqn:Heq;
      [| reflexivity].
    destruct (proj1 Hout) as [_ Hbound]; [by eexists |]. simpl in Hbound. lia.
  - destruct (get_ccd_documents [] inputs 0) as [args |] eqn:Heq;
      [| reflexivity].
    destruct (proj1 Hempty) as [Hbound _]; [by eexists |]. simpl in Hbound. lia.
Defined.
